(** * A shallow embedding of [make-gallery-pages.py]

    Python strings are modelled as lists of code points ([pystr]); byte
    strings as lists of integers in [0, 256).  YAML values and Python dicts
    are modelled by [yval] and insertion-ordered association lists.  The
    script's side effects (printing, writing the cache file, rendering a
    page, copying a file) are recorded as a trace of [event]s in a small
    state-and-exception monad [M]. *)

From Stdlib Require Import List ZArith Lia String Ascii Bool.
Import ListNotations.
Open Scope Z_scope.
Set Warnings "-register-all".

(** ** Strings and YAML values *)

Definition pystr := list Z.

(** ASCII literals as code-point lists. *)
Fixpoint zs (s : string) : pystr :=
  match s with
  | EmptyString => []
  | String a s' => Z.of_nat (nat_of_ascii a) :: zs s'
  end.

Definition str_eqb (a b : pystr) : bool :=
  if list_eq_dec Z.eq_dec a b then true else false.

Lemma str_eqb_eq : forall a b, str_eqb a b = true <-> a = b.
Proof.
  intros a b; unfold str_eqb; destruct (list_eq_dec Z.eq_dec a b); split;
    congruence.
Qed.

Lemma str_eqb_refl : forall a, str_eqb a a = true.
Proof. intros a; apply str_eqb_eq; reflexivity. Qed.

Lemma str_eqb_neq : forall a b, a <> b -> str_eqb a b = false.
Proof.
  intros a b H; destruct (str_eqb a b) eqn:E; [|reflexivity].
  apply str_eqb_eq in E; contradiction.
Qed.

(** Values produced by [yaml.load] and by the metadata fetcher. *)
Inductive yval : Type :=
| YNull
| YBool (b : bool)
| YInt (n : Z)
| YStr (s : pystr)
| YList (l : list yval)
| YMap (m : list (pystr * yval)).

(** *** Dicts: insertion-ordered association lists with string keys *)

Fixpoint aget {V} (k : pystr) (l : list (pystr * V)) : option V :=
  match l with
  | [] => None
  | (k', v) :: t => if str_eqb k k' then Some v else aget k t
  end.

(** [d[k] = v]: replace in place when the key exists, append otherwise. *)
Fixpoint aset {V} (k : pystr) (v : V) (l : list (pystr * V)) : list (pystr * V) :=
  match l with
  | [] => [(k, v)]
  | (k', v') :: t => if str_eqb k k' then (k', v) :: t else (k', v') :: aset k v t
  end.

Definition dict := list (pystr * yval).

(** [d.update(other)] *)
Definition dict_update (d other : dict) : dict :=
  fold_left (fun acc kv => aset (fst kv) (snd kv) acc) other d.

(** ** The effect monad: a trace of events and Python exceptions *)

Inductive exn : Type :=
| KeyError (k : pystr)
| AttributeError
| TypeError
| UnicodeEncodeError.

Inductive event : Type :=
| Print (msg : pystr)
| WriteCache (outdir : pystr) (data : dict)
| Render (template : pystr) (outpath : pystr) (data : dict)
| CopyFile (src dst : pystr).

Definition M (A : Type) := list event -> (exn + A) * list event.

Definition ret {A} (a : A) : M A := fun ev => (inr a, ev).
Definition raise {A} (e : exn) : M A := fun ev => (inl e, ev).
Definition bind {A B} (m : M A) (f : A -> M B) : M B :=
  fun ev => match m ev with
            | (inl e, ev') => (inl e, ev')
            | (inr a, ev') => f a ev'
            end.
Definition emit (e : event) : M unit := fun ev => (inr tt, ev ++ [e]).

Notation "x <- m ;; k" := (bind m (fun x => k))
  (at level 61, m at next level, right associativity).
Notation "m ;;; k" := (bind m (fun _ => k))
  (at level 61, right associativity).

(** [d[k]] *)
Definition getitem (d : dict) (k : pystr) : M yval :=
  match aget k d with Some v => ret v | None => raise (KeyError k) end.

(** ** [str.replace] with a one-character pattern *)

Fixpoint replace1 (c : Z) (r : pystr) (s : pystr) : pystr :=
  match s with
  | [] => []
  | x :: t => if x =? c then r ++ replace1 c r t else x :: replace1 c r t
  end.

(** Lines 161-162:
    [data['description'].replace('\n', '').replace('\r', '<br>')] *)
Definition clean_description (s : pystr) : pystr :=
  replace1 13 (zs "<br>") (replace1 10 [] s).

(** ** [str.encode()]: UTF-8, strict (surrogates raise) *)

Definition utf8_char (cp : Z) : option (list Z) :=
  if cp <? 0 then None
  else if cp <? 128 then Some [cp]
  else if cp <? 2048 then Some [192 + cp / 64; 128 + cp mod 64]
  else if cp <? 65536 then
    if (55296 <=? cp) && (cp <=? 57343) then None
    else Some [224 + cp / 4096; 128 + (cp / 64) mod 64; 128 + cp mod 64]
  else if cp <? 1114112 then
    Some [240 + cp / 262144; 128 + (cp / 4096) mod 64;
          128 + (cp / 64) mod 64; 128 + cp mod 64]
  else None.

Fixpoint utf8_encode (s : pystr) : option (list Z) :=
  match s with
  | [] => Some []
  | c :: t =>
      match utf8_char c, utf8_encode t with
      | Some b, Some bt => Some (b ++ bt)
      | _, _ => None
      end
  end.

(** ** [base64.b64encode] and [base64.b64decode] *)

Definition b64_char (x : Z) : Z :=
  if x <? 26 then 65 + x
  else if x <? 52 then 71 + x
  else if x <? 62 then x - 4
  else if x =? 62 then 43
  else 47.

Definition b64_index (c : Z) : option Z :=
  if (65 <=? c) && (c <=? 90) then Some (c - 65)
  else if (97 <=? c) && (c <=? 122) then Some (c - 71)
  else if (48 <=? c) && (c <=? 57) then Some (c + 4)
  else if c =? 43 then Some 62
  else if c =? 47 then Some 63
  else None.

Fixpoint b64encode (bs : list Z) : list Z :=
  match bs with
  | a :: b :: c :: rest =>
      [b64_char (a / 4); b64_char ((a mod 4) * 16 + b / 16);
       b64_char ((b mod 16) * 4 + c / 64); b64_char (c mod 64)] ++ b64encode rest
  | [a; b] =>
      [b64_char (a / 4); b64_char ((a mod 4) * 16 + b / 16);
       b64_char ((b mod 16) * 4); 61]
  | [a] => [b64_char (a / 4); b64_char ((a mod 4) * 16); 61; 61]
  | [] => []
  end.


(** Line 158: [base64.b64encode(data['title'].encode()).decode()] *)
Definition title_label (title : pystr) : option pystr :=
  option_map b64encode (utf8_encode title).

Example b64_demo : title_label (zs "Demo") = Some (zs "RGVtbw==").
Proof. reflexivity. Qed.

Example b64_e_acute : title_label [233] = Some (zs "w6k=").
Proof. reflexivity. Qed.

(** ** Metadata Fetcher ([get_metadata_from_hs], lines 31-85)

    The parsed XML document is described by the results of the [find]
    calls the function makes.  An [elem] is [None] when [find] returns
    [None], [Some None] for an element whose [.text] is [None], and
    [Some (Some t)] for an element with text [t]. *)

Definition elem := option (option pystr).

(** The [rdf:Description] child of a [dc:creator] element. *)
Record creator_terms := {
  t_name : elem;
  t_organization : elem;
  t_email : elem;
  t_description : elem
}.

Record hs_doc := {
  creators : list (option creator_terms);   (* [None]: no rdf:Description *)
  title_el : elem;
  abstract_el : elem;
  subject_texts : list (option pystr)
}.

(** An HTTP response: its status and the result of [etree.fromstring]
    ([None]: the body does not parse, or the namespace prefixes the [find]
    calls use cannot be resolved in it; both end in the function's
    [except] and return [None]). *)
Record response := {
  status_code : Z;
  body : option hs_doc
}.

Definition text_val (t : option pystr) : yval :=
  match t with Some s => YStr s | None => YNull end.

(** [f'...{x}'] of a text that may be [None]. *)
Definition fmt_text (t : option pystr) : pystr :=
  match t with Some s => s | None => zs "None" end.

(** Lines 51-63; [None] is an exception raised inside the [try]. *)
Definition author_of (c : option creator_terms) : option dict :=
  match c with
  | None => None                               (* [terms.find] on [None] *)
  | Some terms =>
      let add (att : pystr) (e : elem) (d : dict) :=
        match e with Some t => aset att (text_val t) d | None => d end in
      let d := add (zs "email") (t_email terms)
                 (add (zs "organization") (t_organization terms)
                    (add (zs "name") (t_name terms) [])) in
      match t_description terms with
      | Some t => Some (aset (zs "url") (YStr (zs "https://hydroshare.org" ++ fmt_text t)) d)
      | None => Some d
      end
  end.

Fixpoint authors_of (cs : list (option creator_terms)) : option (list yval) :=
  match cs with
  | [] => Some []
  | c :: t =>
      match author_of c, authors_of t with
      | Some d, Some r => Some (YMap d :: r)
      | _, _ => None
      end
  end.

(** [.encode("ascii", "ignore").decode()] *)
Definition ascii_ignore (s : pystr) : pystr := filter (fun c => c <? 128) s.

(** The body of the [try]: status check and parsing.  [resp] is [None]
    when [requests.get] itself raises. *)
Definition get_metadata_from_hs (resp : option response) : option dict :=
  match resp with
  | None => None
  | Some r =>
      if negb (status_code r =? 200) then None else
      match body r with
      | None => None
      | Some doc =>
          match authors_of (creators doc) with
          | None => None
          | Some authors =>
              let data := [(zs "authors", YList authors)] in
              match title_el doc with
              | None => None
              | Some title =>
                  let data := aset (zs "title") (text_val title) data in
                  match abstract_el doc with
                  | Some (Some abs) =>
                      let data := aset (zs "description") (YStr (ascii_ignore abs)) data in
                      let keywords := map text_val (subject_texts doc) in
                      Some (if Nat.ltb 0 (List.length keywords)
                            then aset (zs "keywords") (YList keywords) data
                            else data)
                  | _ => None
                  end
              end
          end
      end
  end.

(** ** [os.path] (posixpath) *)

Definition is_sep (c : Z) : bool := c =? 47.

Fixpoint drop_while (f : Z -> bool) (l : list Z) : list Z :=
  match l with [] => [] | x :: t => if f x then drop_while f t else l end.

Fixpoint take_while (f : Z -> bool) (l : list Z) : list Z :=
  match l with [] => [] | x :: t => if f x then x :: take_while f t else [] end.

(** [p[:p.rfind('/') + 1]] and [p[p.rfind('/') + 1:]] *)
Definition split_head (p : pystr) : pystr :=
  rev (drop_while (fun c => negb (is_sep c)) (rev p)).
Definition split_tail (p : pystr) : pystr :=
  rev (take_while (fun c => negb (is_sep c)) (rev p)).

Definition rstrip_sep (s : pystr) : pystr := rev (drop_while is_sep (rev s)).

Definition dirname (p : pystr) : pystr :=
  let head := split_head p in
  match head with
  | [] => head
  | _ => if forallb is_sep head then head else rstrip_sep head
  end.

Definition basename (p : pystr) : pystr := split_tail p.

Definition path_join (a b : pystr) : pystr :=
  match b with
  | 47 :: _ => b
  | _ =>
      match rev a with
      | [] => b
      | 47 :: _ => a ++ b
      | _ => a ++ [47] ++ b
      end
  end.

Example dirname_demo :
  dirname (zs "./source/gallery/sub/cat/ex") = zs "./source/gallery/sub/cat".
Proof. reflexivity. Qed.

(** Module-level constants, lines 15-18. *)
Definition template_dir := zs "./source/_templates".
Definition static_dir := zs "./source/_static".

(** The per-sub-gallery aggregation structure [subgalleries]. *)
Definition subgalleries := list (pystr * list (pystr * list dict)).

(** [if k not in d.keys(): d[k] = v] *)
Definition setdefault {V} (k : pystr) (v : V) (l : list (pystr * V)) : list (pystr * V) :=
  match aget k l with None => aset k v l | Some _ => l end.

(** [d[k]] on a key known to be present. *)
Definition get_or {V} (k : pystr) (dflt : V) (l : list (pystr * V)) : V :=
  match aget k l with Some v => v | None => dflt end.

(** Lines 217-221. *)
Definition file_record (sg cat : pystr) (d : dict) (sgs : subgalleries) : subgalleries :=
  let sgs1 := setdefault sg [] sgs in
  let cats1 := setdefault cat [] (get_or sg [] sgs1) in
  aset sg (aset cat (get_or cat [] cats1 ++ [d]) cats1) sgs1.

(** Lines 210-221. *)
Definition aggregate (subdir : pystr) (d : dict) (sgs : subgalleries) : subgalleries :=
  let subgallery_path := dirname (dirname subdir) in
  let category := basename (dirname subdir) in
  file_record subgallery_path category d sgs.

(** [subgalleries[sg][cat]], with [[]] for a grouping not yet created. *)
Definition sg_lookup (sg cat : pystr) (sgs : subgalleries) : list dict :=
  match aget sg sgs with
  | Some cats => match aget cat cats with Some l => l | None => [] end
  | None => []
  end.

(** Lines 146-149: [data = hsdata or {}; data.update(yaml_data)]. *)
Definition merge_data (hsdata : option dict) (yaml_data : dict) : dict :=
  dict_update (match hsdata with Some d => d | None => [] end) yaml_data.

(** [yaml_data.get("hydroshare", {}).get("id")], line 134. *)
Definition hs_get_id (y : dict) : M yval :=
  match aget (zs "hydroshare") y with
  | None => ret YNull
  | Some (YMap h) => ret (match aget (zs "id") h with Some v => v | None => YNull end)
  | Some _ => raise AttributeError
  end.

(** [data['hydroshare']['id']] inside the [try] of line 153; [None] when it
    raises (every exception is caught there). *)
Definition hs_label_id (data : dict) : option yval :=
  match aget (zs "hydroshare") data with
  | Some (YMap h) => aget (zs "id") h
  | _ => None
  end.

(** Lines 152-158. *)
Definition derive_label (data : dict) : M dict :=
  match aget (zs "label") data with
  | Some _ => ret data
  | None =>
      match hs_label_id data with
      | Some id => ret (aset (zs "label") id data)
      | None =>
          t <- getitem data (zs "title");;
          match t with
          | YStr s =>
              match title_label s with
              | Some l => ret (aset (zs "label") (YStr l) data)
              | None => raise UnicodeEncodeError
              end
          | _ => raise AttributeError
          end
      end
  end.

Section Gallery.

(** The environment of one run of the script. *)
Variable hs_response : yval -> option response.  (* [requests.get] per id *)
Variable read_conf : pystr -> yval.               (* [yaml.load] of a file *)
Variable abspath : pystr -> pystr.                (* [os.path.abspath] *)
Variable path_exists : pystr -> bool.             (* [os.path.exists] *)
Variable repr_yval : yval -> pystr.               (* [str()] of a non-string *)

(** [f'{v}'] *)
Definition fmt (v : yval) : pystr :=
  match v with YStr s => s | _ => repr_yval v end.

(** [get_metadata_from_hs] with its diagnostic (line 82). *)
Definition get_metadata_io (hsid : yval) : M (option dict) :=
  match get_metadata_from_hs (hs_response hsid) with
  | None =>
      emit (Print (zs "Failed to get hydroshare data for resource id: " ++ fmt hsid));;;
      ret None
  | Some d => ret (Some d)
  end.

(** Lines 146-176, after the metadata has been collected.  Writing the
    cache file and rendering the page are modelled as events that succeed;
    an I/O or template error there is not modelled. *)
Definition finish_example (subdir : pystr) (hsdata : option dict) (y : dict)
  : M (option dict) :=
  data <- derive_label (merge_data hsdata y);;
  desc <- getitem data (zs "description");;
  match desc with
  | YStr ds =>
      let data := aset (zs "description") (YStr (clean_description ds)) data in
      emit (WriteCache subdir data);;;
      emit (Render (template_dir ++ zs "/landingpage.rst")
                   (path_join subdir (zs "index.rst")) data);;;
      ret (Some data)
  | _ => raise AttributeError
  end.

(** [build_example_page], lines 123-176.  [subdir] is the global loop
    variable the function reads. *)
Definition build_example_page (conf subdir : pystr) : M (option dict) :=
  match read_conf conf with
  | YMap y =>
      hsid <- hs_get_id y;;
      match hsid with
      | YNull => finish_example subdir None y
      | _ =>
          hsdata <- get_metadata_io hsid;;
          match hsdata with
          | None => emit (Print (zs "something happened when collecting hs metadata"));;;
                    ret None
          | Some d => finish_example subdir (Some d) y
          end
      end
  | _ => raise AttributeError
  end.

Definition missing_thumbnail (data : dict) : M dict :=
  emit (Print (zs "WARNING: Missing thumbnail, setting to default image"));;;
  ret (aset (zs "thumbnail") (YStr (zs "missing-thumbnail.png")) data).

(** [copy_static], lines 88-108.  The copy is modelled as an event that
    succeeds; an error raised by [shutil.copyfile] is not modelled. *)
Definition copy_static (data : dict) (subdir : pystr) : M dict :=
  match aget (zs "thumbnail") data with
  | Some (YStr t) =>
      let thumbnail_path := abspath (path_join subdir t) in
      if path_exists thumbnail_path then
        lbl <- getitem data (zs "label");;
        let thumbnail_new_name := zs "thumbnail-" ++ fmt lbl in
        emit (CopyFile thumbnail_path (static_dir ++ zs "/" ++ thumbnail_new_name));;;
        ret (aset (zs "thumbnail") (YStr thumbnail_new_name) data)
      else missing_thumbnail data
  | Some _ => raise TypeError                   (* [os.path.join] of a non-str *)
  | None => missing_thumbnail data
  end.

(** One iteration of the [os.walk] loop, lines 195-221. *)
Definition process_entry (e : pystr * list pystr) (sgs : subgalleries) : M subgalleries :=
  let (subdir, files) := e in
  if existsb (str_eqb (zs "conf.yaml")) files then
    emit (Print (zs "processing: " ++ subdir));;;
    od <- build_example_page (path_join subdir (zs "conf.yaml")) subdir;;
    match od with
    | None => ret sgs
    | Some d =>
        d' <- copy_static d subdir;;
        ret (aggregate subdir d' sgs)
    end
  else ret sgs.

(** The traversal loop over the directories [os.walk] yields, in order. *)
Fixpoint run_walk (entries : list (pystr * list pystr)) (sgs : subgalleries)
  : M subgalleries :=
  match entries with
  | [] => ret sgs
  | e :: es => sgs' <- process_entry e sgs;; run_walk es sgs'
  end.

(** ** Sub-gallery pages and homepage, lines 271-322 *)

Definition source_dir := zs "./source".

(** [for v in x]: the values a [for] loop visits. *)
Definition py_iter (v : yval) : M (list yval) :=
  match v with
  | YList l => ret l
  | YMap m => ret (map (fun kv => YStr (fst kv)) m)
  | YStr s => ret (map (fun c => YStr [c]) s)
  | _ => raise TypeError
  end.

(** [v[k]] on a value of the top-level configuration. *)
Definition yget (v : yval) (k : pystr) : M yval :=
  match v with
  | YMap m => getitem m k
  | _ => raise TypeError
  end.

(** [sub == v['gallery_path']] *)
Definition path_is (sub : pystr) (p : yval) : bool :=
  match p with YStr s => str_eqb sub s | _ => false end.

(** Lines 287-291: the [display_name] of the first gallery whose
    [gallery_path] is [sub]; the loop stops there. *)
Fixpoint find_title (sub : pystr) (gs : list yval) : M (option yval) :=
  match gs with
  | [] => ret None
  | v :: rest =>
      p <- yget v (zs "gallery_path");;
      if path_is sub p then (t <- yget v (zs "display_name");; ret (Some t))
      else find_title sub rest
  end.

(** Lines 287-293: [title] after the lookup and the [is None] fallback. *)
Definition resolve_title (sub : pystr) (found : option yval) : yval :=
  match found with
  | Some YNull | None => YStr (basename sub ++ zs " Gallery")
  | Some t => t
  end.

(** The [categories] mapping handed to the template. *)
Definition categories_val (sub_data : list (pystr * list dict)) : yval :=
  YMap (map (fun cl => (fst cl, YList (map YMap (snd cl)))) sub_data).

(** Lines 277-299, one sub-gallery per iteration, [yaml_data["galleries"]]
    read again in each; returns [gallery_labels]. *)
Fixpoint render_subgalleries (yaml_data : yval) (subs : subgalleries)
  (gallery_labels : list (pystr * pystr)) : M (list (pystr * pystr)) :=
  match subs with
  | [] => ret gallery_labels
  | (sub, sub_data) :: rest =>
      let subname := basename sub in
      match title_label subname with
      | None => raise UnicodeEncodeError
      | Some id =>
          let gallery_labels := aset sub id gallery_labels in
          gsv <- yget yaml_data (zs "galleries");;
          gs <- py_iter gsv;;
          found <- find_title sub gs;;
          let title := resolve_title sub found in
          emit (Render (template_dir ++ zs "/gallery.rst") (path_join sub (zs "index.rst"))
                  [(zs "label", YStr id); (zs "gallery_title", title);
                   (zs "categories", categories_val sub_data)]);;;
          render_subgalleries yaml_data rest gallery_labels
      end
  end.

(** [v["gallery_path"] in gallery_labels]: the label, if any; unhashable
    values raise. *)
Definition label_of_path (p : yval) (gallery_labels : list (pystr * pystr))
  : M (option pystr) :=
  match p with
  | YStr s => ret (aget s gallery_labels)
  | YList _ | YMap _ => raise TypeError
  | _ => ret None
  end.

(** [v["label"] = ...] on a gallery entry (a mapping, as [v[...]] succeeded). *)
Definition set_label (v : yval) (id : pystr) : yval :=
  match v with YMap m => YMap (aset (zs "label") (YStr id) m) | _ => v end.

(** Lines 304-316. *)
Fixpoint homepage_panels (gs : list yval) (gallery_labels : list (pystr * pystr))
  : M (list yval) :=
  match gs with
  | [] => ret []
  | v :: rest =>
      p <- yget v (zs "gallery_path");;
      l <- label_of_path p gallery_labels;;
      panels <- homepage_panels rest gallery_labels;;
      match l with
      | Some id => ret (set_label v id :: panels)
      | None => ret panels
      end
  end.

(** Lines 272-322. *)
Definition build_pages (sgs : subgalleries) : M unit :=
  let yaml_data := read_conf (path_join source_dir (zs "conf.yaml")) in
  gallery_labels <- render_subgalleries yaml_data sgs [];;
  gsv <- yget yaml_data (zs "galleries");;
  gs <- py_iter gsv;;
  panels <- homepage_panels gs gallery_labels;;
  emit (Render (template_dir ++ zs "/homepage.rst")
          (path_join source_dir (zs "index.rst")) [(zs "galleries", YList panels)]).

(** The whole [__main__] block after argument parsing. *)
Definition main (entries : list (pystr * list pystr)) : M unit :=
  sgs <- run_walk entries [];;
  build_pages sgs.

End Gallery.

(** * Proofs *)

(** ** Association lists *)

Lemma aget_aset_same : forall {V} k (v : V) l, aget k (aset k v l) = Some v.
Proof.
  intros V k v l; induction l as [|[k' v'] t IH]; simpl.
  - rewrite str_eqb_refl; reflexivity.
  - destruct (str_eqb k k') eqn:E; simpl; rewrite ?E; auto.
Qed.

Lemma aget_aset_other : forall {V} k k' (v : V) l,
  k <> k' -> aget k (aset k' v l) = aget k l.
Proof.
  intros V k k' v l Hne; induction l as [|[k0 v0] t IH]; simpl.
  - rewrite str_eqb_neq by assumption; reflexivity.
  - destruct (str_eqb k' k0) eqn:E; simpl.
    + apply str_eqb_eq in E; subst k0.
      rewrite str_eqb_neq by assumption; reflexivity.
    + rewrite IH; reflexivity.
Qed.

Lemma aget_not_in : forall {V} k (l : list (pystr * V)),
  ~ In k (map fst l) -> aget k l = None.
Proof.
  intros V k l; induction l as [|[k' v'] t IH]; simpl; intros H; auto.
  rewrite str_eqb_neq by (intros ->; auto). apply IH; auto.
Qed.

Lemma aget_In : forall {V} k (v : V) l, aget k l = Some v -> In (k, v) l.
Proof.
  intros V k v l; induction l as [|[k' v'] t IH]; simpl; intros H;
    [discriminate|].
  destruct (str_eqb k k') eqn:E; [|auto].
  apply str_eqb_eq in E; subst; injection H as ->; auto.
Qed.

Lemma keys_aset : forall {V} k (v : V) l,
  map fst (aset k v l) = map fst l \/ map fst (aset k v l) = map fst l ++ [k].
Proof.
  intros V k v l; induction l as [|[k' v'] t IH]; simpl; [right; reflexivity|].
  destruct (str_eqb k k'); simpl; [left; reflexivity|].
  destruct IH as [-> | ->]; [left|right]; reflexivity.
Qed.

Lemma aget_update : forall k y acc,
  NoDup (map fst y) ->
  aget k (dict_update acc y) =
  match aget k y with Some v => Some v | None => aget k acc end.
Proof.
  intros k y; induction y as [|[k' v'] t IH]; intros acc Hnd; simpl; [reflexivity|].
  inversion Hnd as [|? ? Hnin Hnd']; subst.
  unfold dict_update in *; simpl; rewrite IH by assumption.
  destruct (str_eqb k k') eqn:E.
  - apply str_eqb_eq in E; subst k'.
    rewrite aget_not_in by assumption; apply aget_aset_same.
  - destruct (aget k t); [reflexivity|].
    apply aget_aset_other; intros ->; rewrite str_eqb_refl in E; discriminate.
Qed.

Lemma aget_update_none : forall k y acc,
  aget k y = None -> aget k (dict_update acc y) = aget k acc.
Proof.
  intros k y; induction y as [|[k' v'] t IH]; intros acc H; simpl in *; [reflexivity|].
  destruct (str_eqb k k') eqn:E; [discriminate|].
  unfold dict_update in *; simpl; rewrite IH by assumption.
  apply aget_aset_other; intros ->; rewrite str_eqb_refl in E; discriminate.
Qed.

Lemma aget_update_In : forall k v y acc,
  aget k (dict_update acc y) = Some v -> In (k, v) y \/ aget k acc = Some v.
Proof.
  intros k v y; induction y as [|[k' v'] t IH]; intros acc H; simpl in *; [auto|].
  unfold dict_update in *; simpl in H.
  destruct (IH _ H) as [Hin | Hacc]; [auto|].
  destruct (list_eq_dec Z.eq_dec k k') as [->|Hne].
  - rewrite aget_aset_same in Hacc; injection Hacc as ->; auto.
  - rewrite aget_aset_other in Hacc by assumption; auto.
Qed.

(** ** Description normalisation *)

Lemma replace1_not_in : forall c r s, ~ In c r -> ~ In c (replace1 c r s).
Proof.
  intros c r s Hr; induction s as [|x t IH]; simpl; [auto|].
  destruct (x =? c) eqn:E.
  - rewrite in_app_iff; intuition.
  - apply Z.eqb_neq in E; simpl; intuition.
Qed.

Lemma replace1_keeps_out : forall c r s d,
  ~ In d r -> ~ In d s -> ~ In d (replace1 c r s).
Proof.
  intros c r s d Hr; induction s as [|x t IH]; simpl; intros Hs; [auto|].
  destruct (x =? c); simpl; rewrite ?in_app_iff; intuition.
Qed.

Lemma replace1_id : forall c r s, ~ In c s -> replace1 c r s = s.
Proof.
  intros c r s; induction s as [|x t IH]; simpl; intros H; [reflexivity|].
  destruct (x =? c) eqn:E.
  - apply Z.eqb_eq in E; subst; exfalso; auto.
  - rewrite IH; auto.
Qed.

(** C6: cleaning a description twice is the same as cleaning it once, and a
    cleaned description holds no line feed (10) and no carriage return (13). *)
Theorem clean_description_idempotent : forall s,
  clean_description (clean_description s) = clean_description s /\
  ~ In 10 (clean_description s) /\ ~ In 13 (clean_description s).
Proof.
  intros s; unfold clean_description.
  assert (H10 : ~ In 10 (replace1 13 (zs "<br>") (replace1 10 [] s))).
  { apply replace1_keeps_out; [simpl; lia|]. apply replace1_not_in; simpl; auto. }
  assert (H13 : ~ In 13 (replace1 13 (zs "<br>") (replace1 10 [] s))).
  { apply replace1_not_in; simpl; lia. }
  split; [|auto].
  rewrite (replace1_id 10 [] _ H10), (replace1_id 13 _ _ H13); reflexivity.
Qed.

(** C4: in the merged record a key of the local configuration carries the
    local value, and a key absent from it keeps the fetched value. *)
Theorem merge_data_local_wins : forall hsdata y k,
  NoDup (map fst y) ->
  (forall v, aget k y = Some v -> aget k (merge_data hsdata y) = Some v) /\
  (aget k y = None ->
   aget k (merge_data hsdata y) =
   aget k (match hsdata with Some d => d | None => [] end)).
Proof.
  intros hsdata y k Hnd; unfold merge_data; rewrite aget_update by assumption.
  split; [intros v -> | intros ->]; reflexivity.
Qed.

Lemma merge_data_local_wins_witness :
  NoDup (map fst [(zs "title", YStr (zs "Local"))]) /\
  aget (zs "title")
    (merge_data (Some [(zs "title", YStr (zs "Remote")); (zs "authors", YList [])])
                [(zs "title", YStr (zs "Local"))]) = Some (YStr (zs "Local")).
Proof.
  split; [repeat constructor; intros []|].
  apply (merge_data_local_wins _ [(zs "title", YStr (zs "Local"))] (zs "title")).
  - repeat constructor; intros [].
  - reflexivity.
Defined.

(** ** Metadata Fetcher *)

Ltac split_matches H :=
  repeat match type of H with
  | context [match ?x with _ => _ end] => destruct x eqn:?; try discriminate
  end.

(** C2 (as the code has it): the fetched description is the abstract text
    with every non-ASCII character (code point of 128 or more) removed; the
    other characters, control characters included, are kept. *)
Theorem get_metadata_description : forall resp d,
  get_metadata_from_hs resp = Some d ->
  exists r doc abs,
    resp = Some r /\ body r = Some doc /\ abstract_el doc = Some (Some abs) /\
    aget (zs "description") d = Some (YStr (ascii_ignore abs)).
Proof.
  intros resp d H; unfold get_metadata_from_hs in H.
  split_matches H; subst resp.
  all: injection H as <-; do 3 eexists; split; [reflexivity|];
    split; [eassumption|]; split; [eassumption|]; reflexivity.
Qed.

(** A response whose abstract holds a tab (9) and an accented letter (233). *)
Definition demo_doc : hs_doc := {|
  creators := [];
  title_el := Some (Some (zs "T"));
  abstract_el := Some (Some [97; 9; 233; 98]);
  subject_texts := []
|}.

Definition demo_response : response := {| status_code := 200; body := Some demo_doc |}.

Lemma get_metadata_description_witness :
  get_metadata_from_hs (Some demo_response) =
    Some [(zs "authors", YList []); (zs "title", YStr (zs "T"));
          (zs "description", YStr [97; 9; 98])] /\
  exists r doc abs,
    Some demo_response = Some r /\ body r = Some doc /\
    abstract_el doc = Some (Some abs) /\
    aget (zs "description")
      [(zs "authors", YList []); (zs "title", YStr (zs "T"));
       (zs "description", YStr [97; 9; 98])] = Some (YStr (ascii_ignore abs)).
Proof.
  split; [reflexivity|].
  apply get_metadata_description; reflexivity.
Defined.

(** Stripping control characters (Unicode category Cc), as C2 words it. *)
Definition strip_control (s : pystr) : pystr :=
  filter (fun c => negb ((c <? 32) || ((127 <=? c) && (c <? 160)))) s.

(** C2 as stated fails: the tab of the abstract is kept and the accented
    letter, which is no control character, is dropped. *)
Lemma get_metadata_description_counterexample :
  abstract_el demo_doc = Some (Some [97; 9; 233; 98]) /\
  option_map (aget (zs "description")) (get_metadata_from_hs (Some demo_response))
    <> Some (Some (YStr (strip_control [97; 9; 233; 98]))).
Proof. split; [reflexivity | vm_compute; congruence]. Qed.

(** ** Base64 round trip *)

Definition is_byte (b : Z) : Prop := 0 <= b < 256.

Definition alphabet_ok (x : Z) : bool :=
  match b64_index (b64_char x) with
  | Some y => (y =? x) && negb (b64_char x =? 61)
  | None => false
  end.

Lemma alphabet_ok_all :
  forallb alphabet_ok (map Z.of_nat (seq 0 64)) = true.
Proof. vm_compute; reflexivity. Qed.

Lemma b64_char_ok : forall x, 0 <= x < 64 ->
  b64_index (b64_char x) = Some x /\ (b64_char x =? 61) = false.
Proof.
  intros x Hx.
  assert (Hin : In x (map Z.of_nat (seq 0 64))).
  { apply in_map_iff; exists (Z.to_nat x); split; [lia|].
    apply in_seq; lia. }
  pose proof (proj1 (forallb_forall _ _) alphabet_ok_all x Hin) as H.
  unfold alphabet_ok in H; destruct (b64_index (b64_char x)) as [y|]; [|discriminate].
  apply andb_prop in H as [Hy Hp]; apply Z.eqb_eq in Hy; subst y.
  destruct (b64_char x =? 61); [discriminate|auto].
Qed.

Lemma b64_index_char : forall x, 0 <= x < 64 -> b64_index (b64_char x) = Some x.
Proof. intros; apply b64_char_ok; assumption. Qed.


Ltac divmod := Z.div_mod_to_equations; lia.



Lemma some_eq : forall {A} (x y : A), Some x = Some y -> x = y.
Proof. congruence. Qed.

Ltac bytes_ok :=
  repeat (apply Forall_cons; [unfold is_byte; divmod|]); apply Forall_nil.

Lemma utf8_char_bytes : forall cp b, utf8_char cp = Some b -> Forall is_byte b.
Proof.
  intros cp b H; unfold utf8_char in H.
  destruct (cp <? 0) eqn:E0; [discriminate|]; apply Z.ltb_ge in E0.
  destruct (cp <? 128) eqn:E1.
  { apply some_eq in H; subst b; apply Z.ltb_lt in E1; bytes_ok. }
  apply Z.ltb_ge in E1.
  destruct (cp <? 2048) eqn:E2.
  { apply some_eq in H; subst b; apply Z.ltb_lt in E2; bytes_ok. }
  apply Z.ltb_ge in E2.
  destruct (cp <? 65536) eqn:E3.
  { destruct ((55296 <=? cp) && (cp <=? 57343)); [discriminate|].
    apply some_eq in H; subst b; apply Z.ltb_lt in E3; bytes_ok. }
  apply Z.ltb_ge in E3.
  destruct (cp <? 1114112) eqn:E4; [|discriminate].
  apply some_eq in H; subst b; apply Z.ltb_lt in E4; bytes_ok.
Qed.

Lemma utf8_encode_bytes : forall s bs, utf8_encode s = Some bs -> Forall is_byte bs.
Proof.
  intros s; induction s as [|c t IH]; simpl; intros bs H.
  - injection H as <-; constructor.
  - destruct (utf8_char c) eqn:Ec; [|discriminate].
    destruct (utf8_encode t) eqn:Et; [|discriminate].
    injection H as <-; apply Forall_app; split;
      [eapply utf8_char_bytes; eassumption | apply IH; reflexivity].
Qed.

(** ** Label derivation *)




(** ** The script over an arbitrary environment *)

Section GalleryProofs.

Variable hs_response : yval -> option response.
Variable read_conf : pystr -> yval.
Variable abspath : pystr -> pystr.
Variable path_exists : pystr -> bool.
Variable repr_yval : yval -> pystr.

Definition warning_msg := zs "WARNING: Missing thumbnail, setting to default image".

(** Whenever [copy_static] returns, it has only (re)assigned [thumbnail],
    to a string. *)
Lemma copy_static_shape : forall data subdir ev data' ev',
  copy_static abspath path_exists repr_yval data subdir ev = (inr data', ev') ->
  exists s, data' = aset (zs "thumbnail") (YStr s) data.
Proof.
  intros data subdir ev data' ev' H; unfold copy_static in H.
  destruct (aget (zs "thumbnail") data) as [[]|]; try discriminate;
    try (unfold missing_thumbnail, bind, emit, ret in H; simpl in H;
         injection H as <- _; eexists; reflexivity).
  destruct (path_exists (abspath (path_join subdir s))).
  - unfold bind, getitem in H.
    destruct (aget (zs "label") data); [|discriminate].
    unfold ret, emit in H; injection H as <- _; eexists; reflexivity.
  - unfold missing_thumbnail, bind, emit, ret in H; injection H as <- _;
      eexists; reflexivity.
Qed.

(** C9: a record without [thumbnail], or whose [thumbnail] names a path that
    does not exist, gets the default image name; the only event is the
    warning, so nothing is copied. *)
Theorem copy_static_missing : forall data subdir ev,
  (aget (zs "thumbnail") data = None \/
   exists t, aget (zs "thumbnail") data = Some (YStr t) /\
             path_exists (abspath (path_join subdir t)) = false) ->
  copy_static abspath path_exists repr_yval data subdir ev =
    (inr (aset (zs "thumbnail") (YStr (zs "missing-thumbnail.png")) data),
     ev ++ [Print warning_msg]) /\
  aget (zs "thumbnail") (aset (zs "thumbnail") (YStr (zs "missing-thumbnail.png")) data)
    = Some (YStr (zs "missing-thumbnail.png")).
Proof.
  intros data subdir ev H; split; [|apply aget_aset_same].
  unfold copy_static; destruct H as [H | [t [H He]]]; rewrite H; [|rewrite He];
    reflexivity.
Qed.

(** C10: [copy_static] leaves every other field as it was, and adds or
    removes no key other than [thumbnail]. *)
Theorem copy_static_frame : forall data subdir ev data' ev',
  copy_static abspath path_exists repr_yval data subdir ev = (inr data', ev') ->
  (forall k, k <> zs "thumbnail" -> aget k data' = aget k data) /\
  (map fst data' = map fst data \/ map fst data' = map fst data ++ [zs "thumbnail"]).
Proof.
  intros data subdir ev data' ev' H.
  destruct (copy_static_shape _ _ _ _ _ H) as [s ->]; split.
  - intros k Hk; apply aget_aset_other; assumption.
  - apply keys_aset.
Qed.

End GalleryProofs.

Definition demo_thumb_record : dict :=
  [(zs "title", YStr (zs "Demo")); (zs "label", YStr (zs "RGVtbw=="));
   (zs "thumbnail", YStr (zs "thumb.png"))].

Lemma copy_static_missing_witness :
  copy_static (fun p => p) (fun _ => false) (fun _ => zs "?")
    demo_thumb_record (zs "g/s/c/e") [] =
    (inr (aset (zs "thumbnail") (YStr (zs "missing-thumbnail.png")) demo_thumb_record),
     [] ++ [Print warning_msg]) /\
  aget (zs "thumbnail")
    (aset (zs "thumbnail") (YStr (zs "missing-thumbnail.png")) demo_thumb_record)
    = Some (YStr (zs "missing-thumbnail.png")).
Proof.
  apply copy_static_missing; right; exists (zs "thumb.png"); split; reflexivity.
Defined.

Lemma copy_static_frame_witness :
  copy_static (fun p => p) (fun _ => true) (fun _ => zs "?")
    demo_thumb_record (zs "g/s/c/e") [] =
    (inr (aset (zs "thumbnail") (YStr (zs "thumbnail-RGVtbw==")) demo_thumb_record),
     [CopyFile (zs "g/s/c/e/thumb.png") (zs "./source/_static/thumbnail-RGVtbw==")]) /\
  (forall k, k <> zs "thumbnail" ->
     aget k (aset (zs "thumbnail") (YStr (zs "thumbnail-RGVtbw==")) demo_thumb_record)
     = aget k demo_thumb_record).
Proof.
  split; [reflexivity|].
  apply (copy_static_frame (fun p => p) (fun _ => true) (fun _ => zs "?")
           demo_thumb_record (zs "g/s/c/e") []
           _ [CopyFile (zs "g/s/c/e/thumb.png") (zs "./source/_static/thumbnail-RGVtbw==")]).
  reflexivity.
Defined.

(** ** The Example Builder and the traversal loop *)


Lemma derive_label_pure : forall data ev, snd (derive_label data ev) = ev.
Proof.
  intros data ev; unfold derive_label.
  destruct (aget (zs "label") data); [reflexivity|].
  destruct (hs_label_id data); [reflexivity|].
  unfold bind, getitem; destruct (aget (zs "title") data) as [[| | |t| |]|];
    cbv [ret raise]; try reflexivity.
  destruct (title_label t); reflexivity.
Qed.

Section TraversalProofs.

Variable hs_response : yval -> option response.
Variable read_conf : pystr -> yval.
Variable abspath : pystr -> pystr.
Variable path_exists : pystr -> bool.
Variable repr_yval : yval -> pystr.

Abbreviation process := (process_entry hs_response read_conf abspath path_exists repr_yval).
Abbreviation walk := (run_walk hs_response read_conf abspath path_exists repr_yval).


Lemma run_walk_continue : forall e es sgs ev sgs' ev',
  process e sgs ev = (inr sgs', ev') -> walk (e :: es) sgs ev = walk es sgs' ev'.
Proof. intros e es sgs ev sgs' ev' H; simpl; unfold bind; rewrite H; reflexivity. Qed.

(** C3: when the configuration names a hydroshare id and the metadata fetch
    fails, the example only prints its diagnostics: no cache file is
    written, no page is rendered, nothing is copied or aggregated, and the
    loop goes on with the next directory. *)
Theorem fetch_failure_skips_example : forall subdir files es sgs ev y h hsid,
  existsb (str_eqb (zs "conf.yaml")) files = true ->
  read_conf (path_join subdir (zs "conf.yaml")) = YMap y ->
  aget (zs "hydroshare") y = Some (YMap h) ->
  aget (zs "id") h = Some hsid ->
  hsid <> YNull ->
  get_metadata_from_hs (hs_response hsid) = None ->
  let prints :=
    [Print (zs "processing: " ++ subdir);
     Print (zs "Failed to get hydroshare data for resource id: " ++ fmt repr_yval hsid);
     Print (zs "something happened when collecting hs metadata")] in
  process (subdir, files) sgs ev = (inr sgs, ev ++ prints) /\
  walk ((subdir, files) :: es) sgs ev = walk es sgs (ev ++ prints).
Proof.
  intros subdir files es sgs ev y h hsid Hf Hc Hh Hi Hn Hm prints.
  assert (Hp : process (subdir, files) sgs ev = (inr sgs, ev ++ prints)).
  { unfold process_entry; rewrite Hf.
    unfold bind at 1, emit at 1.
    unfold build_example_page; rewrite Hc.
    unfold hs_get_id; rewrite Hh, Hi.
    destruct hsid; try congruence;
      cbv beta iota delta [bind ret emit get_metadata_io]; rewrite Hm;
      cbv beta iota; rewrite <- !app_assoc; reflexivity. }
  split; [exact Hp | apply run_walk_continue; exact Hp].
Qed.


End TraversalProofs.

(** ** Aggregation keys *)

Definition nosep (l : pystr) : bool := forallb (fun c => negb (is_sep c)) l.

Lemma forallb_rev : forall (f : Z -> bool) l, forallb f (rev l) = forallb f l.
Proof.
  intros f l; induction l as [|x t IH]; simpl; [reflexivity|].
  rewrite forallb_app, IH; simpl; rewrite andb_true_r, andb_comm; reflexivity.
Qed.

Lemma drop_while_app_all : forall f l1 l2,
  forallb f l1 = true -> drop_while f (l1 ++ l2) = drop_while f l2.
Proof.
  intros f l1 l2; induction l1 as [|x t IH]; simpl; intros H; [reflexivity|].
  apply andb_prop in H as [-> H]; auto.
Qed.

Lemma take_while_app_all : forall f l1 l2,
  forallb f l1 = true -> take_while f (l1 ++ l2) = l1 ++ take_while f l2.
Proof.
  intros f l1 l2; induction l1 as [|x t IH]; simpl; intros H; [reflexivity|].
  apply andb_prop in H as [-> H]; rewrite IH; auto.
Qed.

Lemma split_head_last : forall a b,
  nosep b = true -> split_head (a ++ [47] ++ b) = a ++ [47].
Proof.
  intros a b Hb; unfold split_head.
  rewrite !rev_app_distr, <- app_assoc, drop_while_app_all
    by (rewrite forallb_rev; exact Hb).
  simpl; rewrite rev_involutive; reflexivity.
Qed.

Lemma basename_last : forall a b,
  nosep b = true -> basename (a ++ [47] ++ b) = b.
Proof.
  intros a b Hb; unfold basename, split_tail.
  rewrite !rev_app_distr, <- app_assoc, take_while_app_all
    by (rewrite forallb_rev; exact Hb).
  simpl; rewrite app_nil_r, rev_involutive; reflexivity.
Qed.

Lemma dirname_nonempty : forall p h,
  split_head p = h -> h <> [] ->
  dirname p = if forallb is_sep h then h else rstrip_sep h.
Proof.
  intros p h Hs Hne; unfold dirname; rewrite Hs; destruct h; [congruence|reflexivity].
Qed.

(** [dirname] of [a/b], where [b] has no separator and [a] ends with a
    character that is not one. *)
Lemma dirname_last : forall a' x b,
  nosep b = true -> is_sep x = false ->
  dirname ((a' ++ [x]) ++ [47] ++ b) = a' ++ [x].
Proof.
  intros a' x b Hb Hx.
  assert (Hall : forallb is_sep ((a' ++ [x]) ++ [47]) = false).
  { rewrite !forallb_app; simpl; rewrite Hx, andb_false_r; reflexivity. }
  rewrite (dirname_nonempty _ ((a' ++ [x]) ++ [47]))
    by (apply split_head_last; exact Hb) || (destruct a'; discriminate).
  rewrite Hall; unfold rstrip_sep.
  rewrite rev_app_distr; simpl; rewrite rev_app_distr; simpl; rewrite Hx.
  simpl; rewrite rev_involutive; reflexivity.
Qed.

Lemma nosep_last : forall l, l <> [] -> nosep l = true ->
  exists l' x, l = l' ++ [x] /\ is_sep x = false.
Proof.
  intros l Hne Hn; destruct (exists_last Hne) as [l' [x ->]].
  exists l', x; split; [reflexivity|].
  unfold nosep in Hn; rewrite forallb_app in Hn; simpl in Hn.
  apply andb_prop in Hn as [_ Hn]; rewrite andb_true_r in Hn.
  destruct (is_sep x); [discriminate|reflexivity].
Qed.

Lemma sg_lookup_file_record : forall sg cat d sgs sg' cat',
  sg_lookup sg' cat' (file_record sg cat d sgs) =
  if str_eqb sg' sg && str_eqb cat' cat
  then sg_lookup sg' cat' sgs ++ [d] else sg_lookup sg' cat' sgs.
Proof.
  intros sg cat d sgs sg' cat'; unfold file_record, setdefault, get_or, sg_lookup.
  destruct (list_eq_dec Z.eq_dec sg' sg) as [->|Hsg].
  - rewrite str_eqb_refl, aget_aset_same; simpl.
    destruct (aget sg sgs) as [cats|] eqn:Es.
    + rewrite Es.
      destruct (list_eq_dec Z.eq_dec cat' cat) as [->|Hc].
      * rewrite str_eqb_refl, aget_aset_same.
        destruct (aget cat cats) eqn:Ec; rewrite ?Ec, ?aget_aset_same; reflexivity.
      * rewrite str_eqb_neq, aget_aset_other by assumption.
        destruct (aget cat cats); [reflexivity|].
        rewrite aget_aset_other by assumption; reflexivity.
    + rewrite aget_aset_same; simpl.
      destruct (list_eq_dec Z.eq_dec cat' cat) as [->|Hc].
      * repeat (rewrite str_eqb_refl; simpl); reflexivity.
      * repeat (rewrite (str_eqb_neq _ _ Hc); simpl); rewrite ?str_eqb_refl; simpl.
        repeat (rewrite (str_eqb_neq _ _ Hc); simpl); reflexivity.
  - rewrite str_eqb_neq by assumption; simpl.
    rewrite aget_aset_other by assumption.
    destruct (aget sg sgs); [reflexivity|].
    rewrite aget_aset_other by assumption; reflexivity.
Qed.

(** C8: for an example directory [pre ++ sg/cat/ex], the record is filed under
    the sub-gallery key [pre ++ sg] and the category [cat]; the grouping for
    that pair gets the record appended at its end (starting from an empty
    grouping on first encounter), and every other grouping is unchanged. *)
Theorem aggregate_groups_by_path : forall pre sg cat ex d sgs,
  sg <> [] -> cat <> [] ->
  nosep sg = true -> nosep cat = true -> nosep ex = true ->
  let subdir := pre ++ sg ++ [47] ++ cat ++ [47] ++ ex in
  dirname (dirname subdir) = pre ++ sg /\
  basename (dirname subdir) = cat /\
  forall sg' cat',
    sg_lookup sg' cat' (aggregate subdir d sgs) =
    if str_eqb sg' (pre ++ sg) && str_eqb cat' cat
    then sg_lookup sg' cat' sgs ++ [d] else sg_lookup sg' cat' sgs.
Proof.
  intros pre sg cat ex d sgs Hsg Hcat Nsg Ncat Nex subdir.
  destruct (nosep_last cat Hcat Ncat) as (c' & xc & Ec & Hxc).
  destruct (nosep_last sg Hsg Nsg) as (s' & xs & Es & Hxs).
  assert (H1 : dirname subdir = pre ++ sg ++ [47] ++ cat).
  { unfold subdir.
    replace (pre ++ sg ++ [47] ++ cat ++ [47] ++ ex)
      with (((pre ++ sg ++ [47] ++ c') ++ [xc]) ++ [47] ++ ex)
      by (rewrite Ec; rewrite <- !app_assoc; reflexivity).
    rewrite dirname_last by assumption; rewrite Ec, <- !app_assoc; reflexivity. }
  assert (H2 : dirname (pre ++ sg ++ [47] ++ cat) = pre ++ sg).
  { replace (pre ++ sg ++ [47] ++ cat) with (((pre ++ s') ++ [xs]) ++ [47] ++ cat)
      by (rewrite Es; rewrite <- !app_assoc; reflexivity).
    rewrite dirname_last by assumption; rewrite Es, <- !app_assoc; reflexivity. }
  assert (H3 : basename (pre ++ sg ++ [47] ++ cat) = cat).
  { rewrite app_assoc; apply basename_last; assumption. }
  rewrite H1, H2, H3; split; [reflexivity|]; split; [reflexivity|].
  intros sg' cat'; unfold aggregate; rewrite H1, H2, H3.
  apply sg_lookup_file_record.
Qed.

Lemma aggregate_groups_by_path_witness :
  sg_lookup (zs "g/sub") (zs "cat")
    (aggregate (zs "g/sub/cat/ex2") [(zs "n", YInt 2)]
       [(zs "g/sub", [(zs "cat", [[(zs "n", YInt 1)]])])]) =
  [[(zs "n", YInt 1)]; [(zs "n", YInt 2)]] /\
  (let subdir := zs "g/" ++ zs "sub" ++ [47] ++ zs "cat" ++ [47] ++ zs "ex2" in
   dirname (dirname subdir) = zs "g/" ++ zs "sub" /\
   basename (dirname subdir) = zs "cat" /\
   forall sg' cat',
     sg_lookup sg' cat' (aggregate subdir [(zs "n", YInt 2)] []) =
     if str_eqb sg' (zs "g/" ++ zs "sub") && str_eqb cat' (zs "cat")
     then sg_lookup sg' cat' [] ++ [[(zs "n", YInt 2)]] else sg_lookup sg' cat' []).
Proof.
  split; [reflexivity|].
  apply aggregate_groups_by_path; (discriminate || reflexivity).
Defined.

(** ** Records filed in the aggregation structure *)

Definition all_records (P : dict -> Prop) (sgs : subgalleries) : Prop :=
  Forall (fun sc => Forall (fun cl => Forall P (snd cl)) (snd sc)) sgs.

Lemma Forall_aset : forall {V} (Q : V -> Prop) k v l,
  Forall (fun kv => Q (snd kv)) l -> Q v -> Forall (fun kv => Q (snd kv)) (aset k v l).
Proof.
  intros V Q k v l Hl Hv; induction Hl as [|[k' v'] t Hh Ht IH]; simpl.
  - constructor; auto.
  - destruct (str_eqb k k'); constructor; auto.
Qed.

Lemma Forall_aget : forall {V} (Q : V -> Prop) k v l,
  Forall (fun kv => Q (snd kv)) l -> aget k l = Some v -> Q v.
Proof.
  intros V Q k v l Hl Hk; apply aget_In in Hk.
  rewrite Forall_forall in Hl; exact (Hl _ Hk).
Qed.

Lemma Forall_setdefault : forall {V} (Q : V -> Prop) k v l,
  Forall (fun kv => Q (snd kv)) l -> Q v -> Forall (fun kv => Q (snd kv)) (setdefault k v l).
Proof.
  intros V Q k v l Hl Hv; unfold setdefault; destruct (aget k l);
    [exact Hl | apply Forall_aset; assumption].
Qed.

Lemma Forall_get_or : forall {V} (Q : V -> Prop) k v l,
  Forall (fun kv => Q (snd kv)) l -> Q v -> Q (get_or k v l).
Proof.
  intros V Q k v l Hl Hv; unfold get_or; destruct (aget k l) eqn:E;
    [eapply Forall_aget; eassumption | exact Hv].
Qed.

Lemma file_record_ok : forall (P : dict -> Prop) sg cat d sgs,
  all_records P sgs -> P d -> all_records P (file_record sg cat d sgs).
Proof.
  intros P sg cat d sgs Hs Hd; unfold all_records, file_record in *.
  set (Q1 := fun cats : list (pystr * list dict) => Forall (fun cl => Forall P (snd cl)) cats).
  assert (H1 : Forall (fun sc => Q1 (snd sc)) (setdefault sg [] sgs))
    by (apply Forall_setdefault; [exact Hs | constructor]).
  assert (H2 : Q1 (setdefault cat [] (get_or sg [] (setdefault sg [] sgs))))
    by (apply Forall_setdefault; [apply (Forall_get_or Q1); [exact H1 | constructor]
                                 | constructor]).
  apply Forall_aset; [exact H1|].
  apply Forall_aset; [exact H2|].
  apply Forall_app; split; [|constructor; [exact Hd | constructor]].
  apply (Forall_get_or (Forall P)); [exact H2 | constructor].
Qed.

(** What the configuration says when a filed record ends up with a null
    label: it sets [label] to null, or [hydroshare.id] to null. *)
Definition null_label_origin (conf : yval) : Prop :=
  exists y, conf = YMap y /\
    (In (zs "label", YNull) y \/
     exists h, In (zs "hydroshare", YMap h) y /\ In (zs "id", YNull) h).

(** The fields a filed record is guaranteed, given the configuration file it
    was built from. *)
Definition record_ok (conf : yval) (d : dict) : Prop :=
  (exists s, aget (zs "description") d = Some (YStr s)) /\
  (exists s, aget (zs "thumbnail") d = Some (YStr s)) /\
  (exists l, aget (zs "label") d = Some l /\ (l = YNull -> null_label_origin conf)).

Lemma get_metadata_no_label : forall resp d,
  get_metadata_from_hs resp = Some d ->
  aget (zs "label") d = None /\ aget (zs "hydroshare") d = None.
Proof.
  intros resp d H; unfold get_metadata_from_hs in H.
  split_matches H; injection H as <-; split; reflexivity.
Qed.

Lemma derive_label_label : forall data ev d ev',
  derive_label data ev = (inr d, ev') ->
  exists l, aget (zs "label") d = Some l /\
    (aget (zs "label") data = Some l \/
     (aget (zs "label") data = None /\ hs_label_id data = Some l) \/
     exists s, l = YStr s).
Proof.
  intros data ev d ev' H; unfold derive_label in H.
  destruct (aget (zs "label") data) as [l|] eqn:El.
  { injection H as <- _; exists l; auto. }
  destruct (hs_label_id data) as [l|] eqn:Eh.
  { injection H as <- _; exists l; split; [apply aget_aset_same | auto]. }
  unfold bind, getitem in H; destruct (aget (zs "title") data) as [t|]; [|discriminate].
  unfold ret in H at 1; destruct t; try discriminate.
  destruct (title_label s) as [lbl|]; [|discriminate].
  injection H as <- _; exists (YStr lbl); split; [apply aget_aset_same | eauto].
Qed.

(** The merged record's label and description, when [finish_example] succeeds
    on fetched data that has neither [label] nor [hydroshare]. *)
Lemma finish_example_ok : forall subdir hsdata y ev d ev',
  aget (zs "label") (match hsdata with Some h => h | None => [] end) = None ->
  aget (zs "hydroshare") (match hsdata with Some h => h | None => [] end) = None ->
  finish_example subdir hsdata y ev = (inr (Some d), ev') ->
  (exists s, aget (zs "description") d = Some (YStr s)) /\
  (exists l, aget (zs "label") d = Some l /\ (l = YNull -> null_label_origin (YMap y))).
Proof.
  intros subdir hsdata y ev d ev' Hl Hh H.
  unfold finish_example, bind at 1 in H.
  destruct (derive_label (merge_data hsdata y) ev) as [[ex|d1] ev1] eqn:Ed;
    [discriminate|].
  unfold bind, getitem in H.
  destruct (aget (zs "description") d1) as [desc|]; [|discriminate].
  unfold ret in H at 1; destruct desc; try discriminate.
  unfold emit, ret in H; injection H as <- _.
  split; [eexists; apply aget_aset_same|].
  destruct (derive_label_label _ _ _ _ Ed) as (l & Hl1 & Horig).
  exists l; split; [rewrite aget_aset_other by (cbv; congruence); exact Hl1|].
  intros ->; exists y; split; [reflexivity|].
  unfold merge_data in Horig.
  destruct Horig as [Hlab | [[_ Hid] | [s' Hs']]]; [| |discriminate].
  - left; destruct (aget_update_In _ _ _ _ Hlab) as [Hin | Hacc]; [exact Hin|].
    destruct hsdata; simpl in *; congruence.
  - right; unfold hs_label_id in Hid.
    destruct (aget (zs "hydroshare") (dict_update _ y)) as [[]|] eqn:Ehs;
      try discriminate.
    destruct (aget_update_In _ _ _ _ Ehs) as [Hin | Hacc].
    + exists m; split; [exact Hin | apply aget_In; exact Hid].
    + destruct hsdata; simpl in *; congruence.
Qed.

(** [sublist l1 l2]: [l1] is [l2] with some elements left out, order kept. *)
Inductive sublist {A : Type} : list A -> list A -> Prop :=
| sublist_nil : sublist [] []
| sublist_skip : forall x l1 l2, sublist l1 l2 -> sublist l1 (x :: l2)
| sublist_take : forall x l1 l2, sublist l1 l2 -> sublist (x :: l1) (x :: l2).

Lemma sublist_nil_l : forall (A : Type) (l : list A), sublist [] l.
Proof. intros A l; induction l; constructor; assumption. Qed.


Section InvariantProofs.

Variable hs_response : yval -> option response.
Variable read_conf : pystr -> yval.
Variable abspath : pystr -> pystr.
Variable path_exists : pystr -> bool.
Variable repr_yval : yval -> pystr.

Lemma build_example_page_ok : forall conf subdir ev d ev',
  build_example_page hs_response read_conf repr_yval conf subdir ev = (inr (Some d), ev') ->
  (exists s, aget (zs "description") d = Some (YStr s)) /\
  (exists l, aget (zs "label") d = Some l /\ (l = YNull -> null_label_origin (read_conf conf))).
Proof.
  intros conf subdir ev d ev' H; unfold build_example_page in H.
  destruct (read_conf conf) as [| | | | |y]; try discriminate.
  unfold hs_get_id, bind at 1 in H.
  destruct (aget (zs "hydroshare") y) as [[| | | | |h]|]; try discriminate.
  - destruct (aget (zs "id") h) as [hsid|]; [destruct hsid|];
      cbv beta iota delta [ret] in H;
      try (eapply finish_example_ok; [| | exact H]; reflexivity);
      unfold get_metadata_io, bind at 1 in H;
      destruct (get_metadata_from_hs (hs_response _)) as [hd|] eqn:Em;
      cbv beta iota delta [emit bind ret] in H; try discriminate;
      destruct (get_metadata_no_label _ _ Em) as [Hl Hh];
      (eapply finish_example_ok; [| | exact H]; assumption).
  - cbv beta iota delta [ret] in H;
      eapply finish_example_ok; [| | exact H]; reflexivity.
Qed.

Lemma process_entry_ok : forall (P : dict -> Prop) subdir files sgs ev sgs' ev',
  (forall d, record_ok (read_conf (path_join subdir (zs "conf.yaml"))) d -> P d) ->
  all_records P sgs ->
  process_entry hs_response read_conf abspath path_exists repr_yval
    (subdir, files) sgs ev = (inr sgs', ev') ->
  all_records P sgs'.
Proof.
  intros P subdir files sgs ev sgs' ev' HP Hs H; unfold process_entry in H.
  destruct (existsb (str_eqb (zs "conf.yaml")) files).
  2: { injection H as <- _; exact Hs. }
  unfold bind at 1, emit at 1 in H.
  unfold bind at 1 in H.
  destruct (build_example_page hs_response read_conf repr_yval
              (path_join subdir (zs "conf.yaml")) subdir
              (ev ++ [Print (zs "processing: " ++ subdir)]))
    as [[ex|[d|]] ev1] eqn:Eb; try discriminate.
  - unfold bind in H.
    destruct (copy_static abspath path_exists repr_yval d subdir ev1)
      as [[ex|d'] ev2] eqn:Ec; [discriminate|].
    injection H as <- _.
    apply file_record_ok; [exact Hs|]; apply HP.
    destruct (build_example_page_ok _ _ _ _ _ Eb) as [[s Hdesc] [l [Hlab Hnull]]].
    destruct (copy_static_shape _ _ _ _ _ _ _ _ Ec) as [t ->].
    split; [exists s; rewrite aget_aset_other by (cbv; congruence); exact Hdesc|].
    split; [exists t; apply aget_aset_same|].
    exists l; split; [rewrite aget_aset_other by (cbv; congruence); exact Hlab | exact Hnull].
  - injection H as <- _; exact Hs.
Qed.

Lemma run_walk_ok : forall (P : dict -> Prop) entries sgs ev sgs' ev',
  (forall e d, In e entries ->
     record_ok (read_conf (path_join (fst e) (zs "conf.yaml"))) d -> P d) ->
  all_records P sgs ->
  run_walk hs_response read_conf abspath path_exists repr_yval entries sgs ev
    = (inr sgs', ev') ->
  all_records P sgs'.
Proof.
  intros P entries; induction entries as [|[subdir files] es IH];
    intros sgs ev sgs' ev' HP Hs H; cbn -[process_entry] in H.
  - injection H as <- _; exact Hs.
  - unfold bind in H.
    destruct (process_entry hs_response read_conf abspath path_exists repr_yval
                (subdir, files) sgs ev) as [[ex|sgs1] ev1] eqn:Ep; [discriminate|].
    eapply IH; [| |exact H].
    + intros e d He; apply HP; right; exact He.
    + eapply process_entry_ok; [|exact Hs|exact Ep].
      intros d; apply (HP (subdir, files)); left; reflexivity.
Qed.








End InvariantProofs.

(** ** Concrete runs *)





Definition conf_hs : yval :=
  YMap [(zs "title", YStr (zs "Remote")); (zs "description", YStr (zs "d"));
        (zs "hydroshare", YMap [(zs "id", YStr (zs "abc123"))])].

Definition http_404 (_ : yval) : option response :=
  Some {| status_code := 404; body := None |}.

(** Two example directories of one category; the first one's configuration
    has no description. *)
Definition two_examples : list (pystr * list pystr) :=
  [(zs "g/sub/cat/ex1", [zs "conf.yaml"]); (zs "g/sub/cat/ex2", [zs "conf.yaml"])].




Lemma fetch_failure_skips_example_witness :
  let prints :=
    [Print (zs "processing: " ++ zs "g/sub/cat/ex1");
     Print (zs "Failed to get hydroshare data for resource id: " ++
            fmt (fun _ => zs "?") (YStr (zs "abc123")));
     Print (zs "something happened when collecting hs metadata")] in
  process_entry http_404 (fun _ => conf_hs) (fun p => p) (fun _ => false) (fun _ => zs "?")
    (zs "g/sub/cat/ex1", [zs "conf.yaml"]) [] [] = (inr [], [] ++ prints) /\
  run_walk http_404 (fun _ => conf_hs) (fun p => p) (fun _ => false) (fun _ => zs "?")
    two_examples [] [] =
  run_walk http_404 (fun _ => conf_hs) (fun p => p) (fun _ => false) (fun _ => zs "?")
    [(zs "g/sub/cat/ex2", [zs "conf.yaml"])] [] ([] ++ prints).
Proof.
  apply (fetch_failure_skips_example http_404 (fun _ => conf_hs) (fun p => p)
           (fun _ => false) (fun _ => zs "?") (zs "g/sub/cat/ex1") [zs "conf.yaml"]
           [(zs "g/sub/cat/ex2", [zs "conf.yaml"])] [] []
           [(zs "title", YStr (zs "Remote")); (zs "description", YStr (zs "d"));
            (zs "hydroshare", YMap [(zs "id", YStr (zs "abc123"))])]
           [(zs "id", YStr (zs "abc123"))] (YStr (zs "abc123"))).
  - reflexivity.
  - reflexivity.
  - reflexivity.
  - reflexivity.
  - discriminate.
  - reflexivity.
Defined.




(** * Further properties of the script *)

(** ** The metadata fetcher *)



Lemma authors_of_length : forall cs l,
  authors_of cs = Some l -> List.length l = List.length cs.
Proof.
  induction cs as [|c t IH]; simpl; intros l H; [injection H as <-; reflexivity|].
  destruct (author_of c); [|discriminate].
  destruct (authors_of t) as [l'|]; [|discriminate].
  injection H as <-; simpl; rewrite (IH l' eq_refl); reflexivity.
Qed.



(** A successful fetch gives the keys [authors], [title], [description] and,
    only when the document has subjects, [keywords], in that order and no
    other: one author per creator, the title text, the abstract with its
    non-ASCII characters dropped, and the subject texts in document order. *)
Theorem get_metadata_fields : forall r doc authors title abs,
  status_code r = 200 -> body r = Some doc ->
  authors_of (creators doc) = Some authors ->
  title_el doc = Some title -> abstract_el doc = Some (Some abs) ->
  exists d, get_metadata_from_hs (Some r) = Some d /\
    map fst d = [zs "authors"; zs "title"; zs "description"] ++
                match subject_texts doc with [] => [] | _ => [zs "keywords"] end /\
    aget (zs "authors") d = Some (YList authors) /\
    List.length authors = List.length (creators doc) /\
    aget (zs "title") d = Some (text_val title) /\
    aget (zs "description") d = Some (YStr (ascii_ignore abs)) /\
    Forall (fun c => c < 128) (ascii_ignore abs) /\
    aget (zs "keywords") d =
      match subject_texts doc with [] => None | ks => Some (YList (map text_val ks)) end.
Proof.
  intros r doc authors title abs Hs Hb Ha Ht Habs.
  unfold get_metadata_from_hs; rewrite Hs, Hb, Ha, Ht, Habs; simpl.
  eexists; split; [reflexivity|].
  assert (Hasc : Forall (fun c => c < 128) (ascii_ignore abs)).
  { apply Forall_forall; intros c Hc; unfold ascii_ignore in Hc.
    apply filter_In in Hc as [_ Hc]; apply Z.ltb_lt; exact Hc. }
  pose proof (authors_of_length _ _ Ha) as Hl.
  destruct (subject_texts doc); simpl; repeat split; auto.
Qed.

Lemma get_metadata_abstract : forall resp hd,
  get_metadata_from_hs resp = Some hd ->
  exists r doc abs, resp = Some r /\ status_code r = 200 /\ body r = Some doc /\
    abstract_el doc = Some (Some abs) /\
    aget (zs "description") hd = Some (YStr (ascii_ignore abs)).
Proof.
  intros resp hd H; unfold get_metadata_from_hs in H.
  destruct resp as [r|]; [|discriminate].
  destruct (Z.eqb_spec (status_code r) 200) as [Hs|]; simpl in H; [|discriminate].
  destruct (body r) as [doc|] eqn:Eb; [|discriminate].
  destruct (authors_of (creators doc)); [|discriminate].
  destruct (title_el doc); [|discriminate].
  destruct (abstract_el doc) as [[abs|]|] eqn:Ea; try discriminate.
  injection H as <-; exists r, doc, abs; repeat split; auto.
  destruct (Nat.ltb 0 _); reflexivity.
Qed.

(** ** The Example Builder *)

Lemma derive_label_hs : forall data v ev,
  aget (zs "label") data = None -> hs_label_id data = Some v ->
  derive_label data ev = (inr (aset (zs "label") v data), ev).
Proof. intros data v ev Hl Hh; unfold derive_label; rewrite Hl, Hh; reflexivity. Qed.

(** How a call of [finish_example] ends: an exception before any output, or
    the cleaned record written to the cache and rendered, in that order. *)
Lemma finish_example_inv : forall subdir hsdata y ev r ev',
  finish_example subdir hsdata y ev = (r, ev') ->
  (exists ex, r = inl ex /\ ev' = ev) \/
  exists d0 ds, derive_label (merge_data hsdata y) ev = (inr d0, ev) /\
    aget (zs "description") d0 = Some (YStr ds) /\
    r = inr (Some (aset (zs "description") (YStr (clean_description ds)) d0)) /\
    ev' = ev ++ [WriteCache subdir (aset (zs "description") (YStr (clean_description ds)) d0);
                 Render (template_dir ++ zs "/landingpage.rst") (path_join subdir (zs "index.rst"))
                        (aset (zs "description") (YStr (clean_description ds)) d0)].
Proof.
  intros subdir hsdata y ev r ev' H.
  unfold finish_example, bind at 1 in H.
  pose proof (derive_label_pure (merge_data hsdata y) ev) as Hp.
  destruct (derive_label (merge_data hsdata y) ev) as [[ex|d0] ev1] eqn:Ed;
    simpl in Hp; subst ev1.
  { injection H as <- <-; left; eauto. }
  unfold bind, getitem in H.
  destruct (aget (zs "description") d0) as [desc|] eqn:Edesc.
  2: { injection H as <- <-; left; eauto. }
  unfold ret at 1 in H; destruct desc;
    try (injection H as <- <-; left; eauto; fail).
  unfold emit, ret in H; injection H as <- <-.
  right; exists d0, s; split; [reflexivity|]; split; [exact Edesc|].
  split; [reflexivity|]; rewrite <- app_assoc; reflexivity.
Qed.

Section ExtraBuild.

Variable hs_response : yval -> option response.
Variable read_conf : pystr -> yval.
Variable abspath : pystr -> pystr.
Variable path_exists : pystr -> bool.
Variable repr_yval : yval -> pystr.

(** When [finish_example] returns a record, its run wrote exactly two
    things, in order: the cache file of [subdir] and the landing page
    [subdir/index.rst], both with the returned record; and that record's
    description is a string free of line feeds and carriage returns. *)
Theorem finish_example_outputs : forall subdir hsdata y ev d ev',
  finish_example subdir hsdata y ev = (inr (Some d), ev') ->
  ev' = ev ++ [WriteCache subdir d;
               Render (template_dir ++ zs "/landingpage.rst")
                      (path_join subdir (zs "index.rst")) d] /\
  exists s, aget (zs "description") d = Some (YStr s) /\ ~ In 10 s /\ ~ In 13 s.
Proof.
  intros subdir hsdata y ev d ev' H.
  destruct (finish_example_inv _ _ _ _ _ _ H) as [(ex & Hr & _) | (d0 & ds & _ & _ & Hr & ->)];
    [discriminate Hr|].
  injection Hr as ->; split; [reflexivity|].
  exists (clean_description ds); split; [apply aget_aset_same|].
  split.
  - apply replace1_keeps_out; [simpl; lia|]. apply replace1_not_in; simpl; auto.
  - apply replace1_not_in; simpl; lia.
Qed.

(** An example whose configuration names a hydroshare id [v] and sets
    neither [label] nor [description] takes both from the resource: when it
    is built, its label is [v] and its description is the abstract text of
    the fetched document, with non-ASCII characters dropped and line breaks
    cleaned. *)
Theorem build_example_from_hydroshare : forall conf subdir y h v ev d ev',
  read_conf conf = YMap y -> NoDup (map fst y) ->
  aget (zs "hydroshare") y = Some (YMap h) -> aget (zs "id") h = Some v -> v <> YNull ->
  aget (zs "label") y = None -> aget (zs "description") y = None ->
  build_example_page hs_response read_conf repr_yval conf subdir ev = (inr (Some d), ev') ->
  exists r doc abs, hs_response v = Some r /\ status_code r = 200 /\ body r = Some doc /\
    abstract_el doc = Some (Some abs) /\
    aget (zs "label") d = Some v /\
    aget (zs "description") d = Some (YStr (clean_description (ascii_ignore abs))).
Proof.
  intros conf subdir y h v ev d ev' Hc Hnd Hh Hid Hv Hl Hdesc H.
  unfold build_example_page in H; rewrite Hc in H.
  unfold hs_get_id, bind at 1 in H; rewrite Hh, Hid in H.
  cbv beta iota delta [ret] in H.
  assert (H' : bind (get_metadata_io hs_response repr_yval v)
                 (fun hsdata => match hsdata with
                                | None => emit (Print (zs "something happened when collecting hs metadata"));;; ret None
                                | Some d => finish_example subdir (Some d) y
                                end) ev = (inr (Some d), ev'))
    by (destruct v; [contradiction | exact H ..]).
  clear H; unfold get_metadata_io, bind at 1 in H'.
  destruct (get_metadata_from_hs (hs_response v)) as [hd|] eqn:Em;
    cbv beta iota delta [emit bind ret] in H'; [|discriminate H'].
  destruct (get_metadata_abstract _ _ Em) as (r & doc & abs & Hr & Hs & Hb & Ha & Hhd).
  exists r, doc, abs; repeat (split; [assumption|]).
  destruct (get_metadata_no_label _ _ Em) as [Hnl Hnh].
  set (merged := merge_data (Some hd) y) in *.
  assert (Hml : aget (zs "label") merged = None)
    by (unfold merged, merge_data; rewrite aget_update_none by exact Hl; exact Hnl).
  assert (Hmh : hs_label_id merged = Some v)
    by (unfold hs_label_id, merged, merge_data; rewrite aget_update, Hh by exact Hnd;
        exact Hid).
  destruct (finish_example_inv _ _ _ _ _ _ H') as [(ex & Hx & _) | (d0 & ds & Hd0 & Hds & Hx & _)];
    [discriminate Hx|].
  fold merged in Hd0; rewrite (derive_label_hs _ _ _ Hml Hmh) in Hd0.
  injection Hd0 as <-; injection Hx as ->.
  rewrite aget_aset_other in Hds by (cbv; congruence).
  unfold merged, merge_data in Hds; rewrite aget_update_none in Hds by exact Hdesc.
  rewrite Hhd in Hds; injection Hds as <-.
  split; [|apply aget_aset_same].
  rewrite aget_aset_other by (cbv; congruence); apply aget_aset_same.
Qed.

(** ** The traversal loop *)

Definition has_conf (e : pystr * list pystr) : bool :=
  existsb (str_eqb (zs "conf.yaml")) (snd e).

(** Directories without a [conf.yaml] play no part in the run: dropping
    them from the walk changes neither the result nor the output. *)
Theorem run_walk_ignores_other_dirs : forall entries sgs ev,
  run_walk hs_response read_conf abspath path_exists repr_yval entries sgs ev =
  run_walk hs_response read_conf abspath path_exists repr_yval
    (filter has_conf entries) sgs ev.
Proof.
  induction entries as [|[subdir files] es IH]; intros sgs ev; [reflexivity|].
  cbn [filter]; destruct (has_conf (subdir, files)) eqn:E; cbn [run_walk]; unfold bind.
  - destruct (process_entry hs_response read_conf abspath path_exists repr_yval
                (subdir, files) sgs ev) as [[ex|sgs'] ev1]; [reflexivity|apply IH].
  - unfold has_conf in E; cbn [snd] in E.
    unfold process_entry at 1; rewrite E; unfold ret at 1; apply IH.
Qed.

Lemma process_entry_grows : forall e sgs ev sgs' ev',
  process_entry hs_response read_conf abspath path_exists repr_yval e sgs ev =
    (inr sgs', ev') ->
  forall sg cat, exists new, sg_lookup sg cat sgs' = sg_lookup sg cat sgs ++ new.
Proof.
  intros [subdir files] sgs ev sgs' ev' H sg cat; unfold process_entry in H.
  destruct (existsb (str_eqb (zs "conf.yaml")) files).
  2: { injection H as <- _; exists []; rewrite app_nil_r; reflexivity. }
  unfold bind at 1, emit at 1 in H; unfold bind at 1 in H.
  destruct (build_example_page hs_response read_conf repr_yval
              (path_join subdir (zs "conf.yaml")) subdir
              (ev ++ [Print (zs "processing: " ++ subdir)]))
    as [[ex|[d|]] ev1]; try discriminate.
  - unfold bind in H.
    destruct (copy_static abspath path_exists repr_yval d subdir ev1)
      as [[ex|d'] ev2]; [discriminate|].
    injection H as <- _; unfold aggregate; rewrite sg_lookup_file_record.
    destruct (_ && _); [exists [d']|exists []; rewrite app_nil_r]; reflexivity.
  - injection H as <- _; exists []; rewrite app_nil_r; reflexivity.
Qed.

(** The loop only appends: at the end of a successful run, every
    (sub-gallery, category) grouping starts with the records it held
    before, in the same order. *)
Theorem run_walk_append_only : forall entries sgs ev sgs' ev',
  run_walk hs_response read_conf abspath path_exists repr_yval entries sgs ev =
    (inr sgs', ev') ->
  forall sg cat, exists new, sg_lookup sg cat sgs' = sg_lookup sg cat sgs ++ new.
Proof.
  induction entries as [|e es IH]; intros sgs ev sgs' ev' H sg cat.
  - injection H as <- _; exists []; rewrite app_nil_r; reflexivity.
  - simpl in H; unfold bind at 1 in H.
    destruct (process_entry hs_response read_conf abspath path_exists repr_yval e sgs ev)
      as [[ex|sgs1] ev1] eqn:Ep; [discriminate|].
    destruct (process_entry_grows _ _ _ _ _ Ep sg cat) as [n1 H1].
    destruct (IH _ _ _ _ H sg cat) as [n2 H2].
    exists (n1 ++ n2); rewrite H2, H1, app_assoc; reflexivity.
Qed.

End ExtraBuild.

(** ** Labels from titles *)

Lemma utf8_char_None : forall c,
  utf8_char c = None <-> c < 0 \/ 55296 <= c <= 57343 \/ 1114112 <= c.
Proof.
  intros c; unfold utf8_char.
  destruct (Z.ltb_spec c 0); [split; [intros _; left; lia | reflexivity]|].
  destruct (Z.ltb_spec c 128); [split; [discriminate | lia]|].
  destruct (Z.ltb_spec c 2048); [split; [discriminate | lia]|].
  destruct (Z.ltb_spec c 65536).
  - destruct (Z.leb_spec 55296 c), (Z.leb_spec c 57343); simpl;
      [split; [intros _; right; left; lia | reflexivity] | split; [discriminate | lia] ..].
  - destruct (Z.ltb_spec c 1114112); [split; [discriminate | lia]|].
    split; [intros _; right; right; lia | reflexivity].
Qed.

Lemma utf8_encode_None : forall s,
  utf8_encode s = None <-> exists c, In c s /\ utf8_char c = None.
Proof.
  induction s as [|c t IH]; simpl.
  - split; [discriminate | intros (c & [] & _)].
  - destruct (utf8_char c) eqn:Ec.
    + destruct (utf8_encode t) eqn:Et; split.
      * discriminate.
      * intros (c' & [<-|Hin] & Hc'); [congruence|].
        assert (Hn : Some l0 = None) by (apply IH; eauto); discriminate Hn.
      * intros _; destruct (proj1 IH eq_refl) as (c' & Hin & Hc'); eauto.
      * reflexivity.
    + split; [intros _; eauto | reflexivity].
Qed.

(** [title_label] fails (the script raises [UnicodeEncodeError]) exactly
    when the title holds a code point that strict UTF-8 cannot encode: a
    lone surrogate, or a value outside [0, 0x10FFFF]. *)
Theorem title_label_fails_iff : forall s,
  title_label s = None <->
  exists c, In c s /\ (c < 0 \/ 55296 <= c <= 57343 \/ 1114112 <= c).
Proof.
  intros s; unfold title_label.
  transitivity (utf8_encode s = None).
  - destruct (utf8_encode s); cbn [option_map];
      split; intros H; first [discriminate H | reflexivity].
  - rewrite utf8_encode_None; split; intros (c & Hin & Hc); exists c;
      split; auto; apply utf8_char_None; auto.
Qed.

Lemma div3_step : forall k, ((S (S (S k)) + 2) / 3 = S ((k + 2) / 3))%nat.
Proof.
  intros k; replace (S (S (S k)) + 2)%nat with (1 * 3 + (k + 2))%nat by lia.
  rewrite Nat.div_add_l by lia; reflexivity.
Qed.

Definition b64_text_char (c : Z) : Prop := b64_index c <> None \/ c = 61.

Lemma b64_char_text : forall x, 0 <= x < 64 -> b64_text_char (b64_char x).
Proof. intros x Hx; left; rewrite b64_index_char by exact Hx; discriminate. Qed.

Ltac b64_chars :=
  repeat (apply Forall_cons;
          [first [right; reflexivity | apply b64_char_text; divmod] |]).

Lemma b64encode_shape_aux : forall n bs,
  (List.length bs <= n)%nat -> Forall is_byte bs ->
  List.length (b64encode bs) = (4 * ((List.length bs + 2) / 3))%nat /\
  Forall b64_text_char (b64encode bs).
Proof.
  induction n as [|n IH]; intros bs Hlen Hb.
  - destruct bs; [split; [reflexivity | constructor] | simpl in Hlen; lia].
  - destruct bs as [|a [|b [|c rest]]].
    + split; [reflexivity | constructor].
    + inversion Hb as [|? ? Ha _]; unfold is_byte in Ha.
      split; [reflexivity|]; simpl; b64_chars; apply Forall_nil.
    + inversion Hb as [|? ? Ha Hb']; inversion Hb' as [|? ? Hb1 _]; unfold is_byte in *.
      split; [reflexivity|]; simpl; b64_chars; apply Forall_nil.
    + inversion Hb as [|? ? Ha Hb']; inversion Hb' as [|? ? Hb1 Hb''];
        inversion Hb'' as [|? ? Hc Hrest]; unfold is_byte in Ha, Hb1, Hc.
      destruct (IH rest) as [IHl IHf]; [simpl in Hlen; lia | exact Hrest|].
      cbn [b64encode]; rewrite length_app, IHl; cbn [List.length].
      split; [rewrite div3_step; lia|].
      apply Forall_app; split; [b64_chars; apply Forall_nil | exact IHf].
Qed.

(** A label derived from a title is the Base64 text of the title's UTF-8
    bytes: four characters for every started group of three bytes, each
    one from the Base64 alphabet or the padding character [=]. *)
Theorem title_label_shape : forall s l,
  title_label s = Some l ->
  exists bs, utf8_encode s = Some bs /\
    List.length l = (4 * ((List.length bs + 2) / 3))%nat /\
    Forall b64_text_char l.
Proof.
  intros s l H; unfold title_label in H.
  destruct (utf8_encode s) as [bs|] eqn:Eu; [|discriminate].
  injection H as <-; exists bs; split; [reflexivity|].
  apply (b64encode_shape_aux (List.length bs)); [lia | eapply utf8_encode_bytes; exact Eu].
Qed.

(** ** Sub-gallery pages and homepage *)

Lemma yget_pure : forall v k ev r ev', yget v k ev = (r, ev') -> ev' = ev.
Proof.
  intros v k ev r ev' H; destruct v; cbv [yget raise] in H; try congruence.
  unfold getitem in H; destruct (aget k m); cbv [ret raise] in H; congruence.
Qed.

Lemma py_iter_any : forall v ev r ev',
  py_iter v ev = (r, ev') -> ev' = ev /\ forall ev0, py_iter v ev0 = (r, ev0).
Proof. intros v ev r ev' H; destruct v; cbv [py_iter ret raise] in *; split; congruence. Qed.

Lemma find_title_pure : forall sub gs ev r ev', find_title sub gs ev = (r, ev') -> ev' = ev.
Proof.
  induction gs as [|v rest IH]; intros ev r ev' H; cbn [find_title] in H.
  - unfold ret in H; congruence.
  - unfold bind at 1 in H.
    destruct (yget v (zs "gallery_path") ev) as [[ex|p] ev1] eqn:Ey;
      apply yget_pure in Ey; subst ev1; [congruence|].
    destruct (path_is sub p); [|eapply IH; exact H].
    unfold bind in H; destruct (yget v (zs "display_name") ev) as [[ex|t] ev2] eqn:Ey2;
      apply yget_pure in Ey2; subst ev2; unfold ret in H; congruence.
Qed.

(** A configured gallery entry for another path than [sub]. *)
Definition other_gallery (sub : pystr) (v : yval) : Prop :=
  exists m p, v = YMap m /\ aget (zs "gallery_path") m = Some p /\ p <> YStr sub.

(** The lookup proper: the first configured gallery for [sub], if any. *)
Lemma find_title_found : forall sub gs ev r ev',
  find_title sub gs ev = (inr r, ev') ->
  match r with
  | Some t => exists pre m post, gs = pre ++ YMap m :: post /\
      Forall (other_gallery sub) pre /\
      aget (zs "gallery_path") m = Some (YStr sub) /\
      aget (zs "display_name") m = Some t
  | None => Forall (other_gallery sub) gs
  end.
Proof.
  induction gs as [|v rest IH]; intros ev r ev' H; cbn [find_title] in H.
  - unfold ret in H; injection H as <- _; constructor.
  - cbv beta iota delta [bind yget getitem ret raise] in H.
    destruct v as [| | | | |m]; try discriminate H.
    destruct (aget (zs "gallery_path") m) as [p|] eqn:Ep; [|discriminate H].
    destruct (path_is sub p) eqn:Epath.
    + destruct (aget (zs "display_name") m) as [t|] eqn:Ed; [|discriminate H].
      injection H as <- _.
      assert (p = YStr sub) as ->.
      { destruct p; try discriminate Epath; apply str_eqb_eq in Epath; congruence. }
      exists [], m, rest; auto.
    + assert (Ho : other_gallery sub (YMap m)).
      { exists m, p; split; [reflexivity|]; split; [exact Ep|].
        intros ->; unfold path_is in Epath; rewrite str_eqb_refl in Epath; discriminate. }
      specialize (IH _ _ _ H); destruct r as [t|].
      * destruct IH as (pre & m' & post & -> & Hpre & Hgp & Hdn).
        exists (YMap m :: pre), m', post; split; [reflexivity|]; auto.
      * constructor; assumption.
Qed.

(** The title of a sub-gallery page: the lookup stops at the first
    configured gallery whose [gallery_path] is the sub-gallery's path (every
    gallery before it has another path) and the title is its
    [display_name], unless that is null; when no gallery matches, or the
    matching one has a null [display_name], the title is the directory
    name followed by " Gallery". *)
Theorem find_title_first : forall sub gs ev r ev',
  find_title sub gs ev = (inr r, ev') ->
  (Forall (other_gallery sub) gs /\ r = None /\
   resolve_title sub r = YStr (basename sub ++ zs " Gallery")) \/
  (exists pre m post t, gs = pre ++ YMap m :: post /\
     Forall (other_gallery sub) pre /\
     aget (zs "gallery_path") m = Some (YStr sub) /\
     aget (zs "display_name") m = Some t /\ r = Some t /\
     resolve_title sub r =
       match t with YNull => YStr (basename sub ++ zs " Gallery") | _ => t end).
Proof.
  intros sub gs ev r ev' H; pose proof (find_title_found _ _ _ _ _ H) as Hf.
  destruct r as [t|].
  - right; destruct Hf as (pre & m & post & Hgs & Hpre & Hgp & Hdn).
    exists pre, m, post, t; repeat (split; [assumption|]); split; [reflexivity|].
    destruct t; reflexivity.
  - left; split; [exact Hf | split; reflexivity].
Qed.

(** The page rendered for sub-gallery [s]: [<path>/index.rst] from the
    gallery template, labelled with the Base64 text of the directory name,
    titled by the lookup in the configured galleries, listing the
    sub-gallery's categories. *)
Definition gallery_page (yaml_data : yval) (s : pystr * list (pystr * list dict))
  (e : event) : Prop :=
  exists id ev0 gsv gs found,
    title_label (basename (fst s)) = Some id /\
    yget yaml_data (zs "galleries") ev0 = (inr gsv, ev0) /\
    py_iter gsv ev0 = (inr gs, ev0) /\
    find_title (fst s) gs ev0 = (inr found, ev0) /\
    e = Render (template_dir ++ zs "/gallery.rst") (path_join (fst s) (zs "index.rst"))
          [(zs "label", YStr id); (zs "gallery_title", resolve_title (fst s) found);
           (zs "categories", categories_val (snd s))].

Lemma render_subgalleries_spec : forall yaml_data subs gl ev gl' ev',
  render_subgalleries yaml_data subs gl ev = (inr gl', ev') ->
  (exists new, ev' = ev ++ new /\ Forall2 (gallery_page yaml_data) subs new) /\
  forall k,
    aget k gl' = (if existsb (str_eqb k) (map fst subs)
                  then title_label (basename k) else aget k gl) /\
    (In k (map fst subs) -> title_label (basename k) <> None).
Proof.
  induction subs as [|[sub sd] rest IH]; intros gl ev gl' ev' H.
  - cbn [render_subgalleries] in H; unfold ret in H; injection H as <- <-.
    split; [exists []; split; [rewrite app_nil_r; reflexivity | constructor]|].
    intros k; split; [reflexivity | intros []].
  - cbn [render_subgalleries] in H.
    destruct (title_label (basename sub)) as [id|] eqn:Et; [|cbv [raise] in H; discriminate H].
    unfold bind at 1 in H.
    destruct (yget yaml_data (zs "galleries") ev) as [[ex|gsv] ev1] eqn:Ey;
      pose proof (yget_pure _ _ _ _ _ Ey); subst ev1; [discriminate H|].
    unfold bind at 1 in H.
    destruct (py_iter gsv ev) as [[ex|gs] ev1] eqn:Ep;
      destruct (py_iter_any _ _ _ _ Ep) as [-> _]; [discriminate H|].
    unfold bind at 1 in H.
    destruct (find_title sub gs ev) as [[ex|found] ev1] eqn:Ef;
      pose proof (find_title_pure _ _ _ _ _ Ef); subst ev1; [discriminate H|].
    unfold bind at 1, emit at 1 in H.
    destruct (IH _ _ _ _ H) as [[new [Hev Hall]] Hlab]; split.
    + eexists; split; [rewrite Hev, <- app_assoc; reflexivity|].
      constructor; [|exact Hall].
      exists id, ev, gsv, gs, found; repeat split; assumption.
    + intros k; destruct (Hlab k) as [Hk Hin]; split.
      * rewrite Hk; cbn [map existsb fst].
        destruct (list_eq_dec Z.eq_dec k sub) as [->|Hne].
        -- rewrite str_eqb_refl; cbn [orb].
           destruct (existsb _ _); [reflexivity|].
           rewrite aget_aset_same; symmetry; exact Et.
        -- rewrite (str_eqb_neq _ _ Hne); cbn [orb].
           destruct (existsb _ _); [reflexivity|].
           apply aget_aset_other; exact Hne.
      * intros [Hs|Hs]; [simpl in Hs; subst k; rewrite Et; discriminate | auto].
Qed.

(** The panel a configured gallery entry contributes to the homepage. *)
Definition panel_of (gallery_labels : list (pystr * pystr)) (v : yval) : list yval :=
  match v with
  | YMap m =>
      match aget (zs "gallery_path") m with
      | Some (YStr s) =>
          match aget s gallery_labels with
          | Some id => [YMap (aset (zs "label") (YStr id) m)]
          | None => []
          end
      | _ => []
      end
  | _ => []
  end.

Lemma homepage_panels_flat : forall gs gl ev panels ev',
  homepage_panels gs gl ev = (inr panels, ev') ->
  ev' = ev /\ panels = flat_map (panel_of gl) gs.
Proof.
  induction gs as [|v rest IH]; intros gl ev panels ev' H; cbn [homepage_panels] in H.
  - unfold ret in H; injection H as <- <-; auto.
  - cbv beta iota delta [bind yget getitem ret raise label_of_path] in H.
    destruct v as [| | | | |m]; try discriminate H.
    destruct (aget (zs "gallery_path") m) as [p|] eqn:Ep; [|discriminate H].
    destruct p as [| | |s| |]; try discriminate H;
      destruct (homepage_panels rest gl ev) as [[ex|ps] ev1] eqn:Eh; try discriminate H;
      destruct (IH _ _ _ _ Eh) as [-> ->]; cbn [flat_map panel_of]; rewrite Ep;
      try (injection H as <- <-; auto; fail).
    destruct (aget s gl); injection H as <- <-; auto.
Qed.

Section ExtraPages.

Variable read_conf : pystr -> yval.

(** A successful page build reads the top-level [conf.yaml] (a mapping with
    a [galleries] entry), renders one gallery page per sub-gallery in the
    order of [subgalleries], and ends with the homepage [./source/index.rst].
    The homepage panels are exactly the configured galleries whose path has
    a rendered sub-gallery, each carrying the same label as that
    sub-gallery's page: galleries without built examples are left out. *)
Theorem build_pages_outputs : forall sgs ev ev',
  build_pages read_conf sgs ev = (inr tt, ev') ->
  exists top gsv gs new panels,
    read_conf (path_join source_dir (zs "conf.yaml")) = YMap top /\
    aget (zs "galleries") top = Some gsv /\
    (forall ev0, py_iter gsv ev0 = (inr gs, ev0)) /\
    ev' = ev ++ new ++ [Render (template_dir ++ zs "/homepage.rst")
                          (path_join source_dir (zs "index.rst"))
                          [(zs "galleries", YList panels)]] /\
    Forall2 (gallery_page (YMap top)) sgs new /\
    (forall p, In p panels -> exists m s id,
       p = YMap (aset (zs "label") (YStr id) m) /\ In (YMap m) gs /\
       aget (zs "gallery_path") m = Some (YStr s) /\ In s (map fst sgs) /\
       title_label (basename s) = Some id) /\
    (forall m s, In (YMap m) gs -> aget (zs "gallery_path") m = Some (YStr s) ->
       In s (map fst sgs) ->
       exists id, title_label (basename s) = Some id /\
                  In (YMap (aset (zs "label") (YStr id) m)) panels).
Proof.
  intros sgs ev ev' H; unfold build_pages in H; cbv zeta in H.
  remember (read_conf (path_join source_dir (zs "conf.yaml"))) as yd eqn:Eyd.
  unfold bind at 1 in H.
  destruct (render_subgalleries yd sgs [] ev) as [[ex|gl] ev1] eqn:Er; [discriminate H|].
  destruct (render_subgalleries_spec _ _ _ _ _ _ Er) as [[new [Hev Hall]] Hlab].
  unfold bind at 1 in H.
  destruct (yget yd (zs "galleries") ev1) as [[ex|gsv] ev2] eqn:Ey;
    pose proof (yget_pure _ _ _ _ _ Ey); subst ev2; [discriminate H|].
  destruct yd as [| | | | |top]; try (cbv [yget raise] in Ey; discriminate Ey).
  unfold yget, getitem in Ey; destruct (aget (zs "galleries") top) as [g|] eqn:Eg;
    cbv [ret raise] in Ey; [|discriminate Ey].
  injection Ey as <-.
  unfold bind at 1 in H.
  destruct (py_iter g ev1) as [[ex|gs] ev2] eqn:Ep;
    destruct (py_iter_any _ _ _ _ Ep) as [-> Hp]; [discriminate H|].
  unfold bind at 1 in H.
  destruct (homepage_panels gs gl ev1) as [[ex|panels] ev2] eqn:Eh; [discriminate H|].
  destruct (homepage_panels_flat _ _ _ _ _ Eh) as [-> ->].
  unfold emit in H; injection H as <-.
  exists top, g, gs, new, (flat_map (panel_of gl) gs).
  split; [reflexivity|]; split; [exact Eg|]; split; [exact Hp|].
  split; [rewrite Hev, <- app_assoc; reflexivity|]; split; [exact Hall|]; split.
  - intros p Hin; apply in_flat_map in Hin as (v & Hv & Hpv).
    destruct v as [| | | | |m]; try destruct Hpv.
    cbn [panel_of] in Hpv.
    destruct (aget (zs "gallery_path") m) as [[| | |s| |]|] eqn:Egp; try destruct Hpv.
    destruct (aget s gl) as [id|] eqn:Eid; [|destruct Hpv].
    destruct Hpv as [<-|[]].
    destruct (Hlab s) as [Hs _]; rewrite Eid in Hs.
    destruct (existsb (str_eqb s) (map fst sgs)) eqn:Ex; [|discriminate Hs].
    apply existsb_exists in Ex as (x & Hx & Hsx); apply str_eqb_eq in Hsx; subst x.
    exists m, s, id; repeat split; auto.
  - intros m s Hin Hgp Hs; destruct (Hlab s) as [Hk Hne].
    pose proof (Hne Hs) as Hsome.
    assert (Hex : existsb (str_eqb s) (map fst sgs) = true)
      by (apply existsb_exists; exists s; split; [exact Hs | apply str_eqb_refl]).
    rewrite Hex in Hk.
    destruct (title_label (basename s)) as [id|] eqn:Et; [|congruence].
    exists id; split; [reflexivity|].
    apply in_flat_map; exists (YMap m); split; [exact Hin|].
    cbn [panel_of]; rewrite Hgp, Hk; left; reflexivity.
Qed.

(** A top-level [conf.yaml] without a [galleries] entry makes the page
    build raise [KeyError('galleries')] before it writes any page (provided
    the sub-gallery directory names can be encoded). *)
Theorem build_pages_no_galleries : forall sgs top ev,
  read_conf (path_join source_dir (zs "conf.yaml")) = YMap top ->
  aget (zs "galleries") top = None ->
  Forall (fun s => title_label (basename (fst s)) <> None) sgs ->
  build_pages read_conf sgs ev = (inl (KeyError (zs "galleries")), ev).
Proof.
  intros sgs top ev Hc Hg Ht; unfold build_pages; rewrite Hc; cbv zeta.
  destruct sgs as [|[sub sd] rest].
  - cbn [render_subgalleries].
    cbv beta iota delta [bind yget getitem ret raise]; rewrite Hg; reflexivity.
  - inversion Ht as [|? ? Hs _]; cbn [render_subgalleries fst] in *.
    destruct (title_label (basename sub)); [|contradiction].
    cbv beta iota delta [bind yget getitem ret raise]; rewrite Hg; reflexivity.
Qed.

End ExtraPages.

(** ** Concrete runs of the further properties *)

Definition flood_creator : creator_terms := {|
  t_name := Some (Some (zs "Ada"));
  t_organization := None;
  t_email := Some None;
  t_description := Some (Some (zs "/user/7/"))
|}.

(** A resource whose abstract holds a line break and a non-ASCII letter. *)
Definition flood_doc : hs_doc := {|
  creators := [Some flood_creator];
  title_el := Some (Some (zs "Flood"));
  abstract_el := Some (Some ([67; 233; 13; 10] ++ zs "d"));
  subject_texts := [Some (zs "hydrology"); None]
|}.

Definition flood_response : response := {| status_code := 200; body := Some flood_doc |}.

Definition flood_conf : yval :=
  YMap [(zs "title", YStr (zs "Flood"));
        (zs "hydroshare", YMap [(zs "id", YStr (zs "abc123"))])].

Definition local_conf : dict :=
  [(zs "title", YStr (zs "Local")); (zs "description", YStr [76; 13; 10; 50])].

Definition site_conf : yval :=
  YMap [(zs "galleries",
         YList [YMap [(zs "gallery_path", YStr (zs "g/sub"));
                      (zs "display_name", YStr (zs "Sub"))];
                YMap [(zs "gallery_path", YStr (zs "g/empty"));
                      (zs "display_name", YStr (zs "Empty"))]])].

Definition site_sgs : subgalleries :=
  [(zs "g/sub", [(zs "cat", [[(zs "label", YStr (zs "x"))]])])].

Lemma get_metadata_fields_witness :
  exists d, get_metadata_from_hs (Some flood_response) = Some d /\
    aget (zs "description") d = Some (YStr ([67; 13; 10] ++ zs "d")) /\
    aget (zs "keywords") d = Some (YList [YStr (zs "hydrology"); YNull]).
Proof.
  destruct (get_metadata_fields flood_response flood_doc _ (Some (zs "Flood"))
              ([67; 233; 13; 10] ++ zs "d") eq_refl eq_refl eq_refl eq_refl eq_refl)
    as (d & Hd & _ & _ & _ & _ & Hdesc & _ & Hkw).
  exists d; split; [exact Hd|]; split; [rewrite Hdesc | rewrite Hkw]; reflexivity.
Defined.

Lemma finish_example_outputs_witness :
  exists d ev',
    finish_example (zs "g/s/c/e") None local_conf [] = (inr (Some d), ev') /\
    ev' = [WriteCache (zs "g/s/c/e") d;
           Render (template_dir ++ zs "/landingpage.rst")
                  (path_join (zs "g/s/c/e") (zs "index.rst")) d] /\
    exists s, aget (zs "description") d = Some (YStr s) /\ ~ In 10 s /\ ~ In 13 s.
Proof.
  do 2 eexists; split; [cbv; reflexivity|].
  apply (finish_example_outputs (zs "g/s/c/e") None local_conf []); reflexivity.
Defined.

Lemma build_example_from_hydroshare_witness :
  exists d ev',
    build_example_page (fun _ => Some flood_response) (fun _ => flood_conf) (fun _ => zs "?")
      (zs "g/s/c/e/conf.yaml") (zs "g/s/c/e") [] = (inr (Some d), ev') /\
    exists r doc abs, Some flood_response = Some r /\ status_code r = 200 /\
      body r = Some doc /\ abstract_el doc = Some (Some abs) /\
      aget (zs "label") d = Some (YStr (zs "abc123")) /\
      aget (zs "description") d = Some (YStr (clean_description (ascii_ignore abs))).
Proof.
  do 2 eexists; split; [cbv; reflexivity|].
  eapply (build_example_from_hydroshare (fun _ => Some flood_response) (fun _ => flood_conf)
           (fun _ => zs "?") (zs "g/s/c/e/conf.yaml") (zs "g/s/c/e")
           [(zs "title", YStr (zs "Flood"));
            (zs "hydroshare", YMap [(zs "id", YStr (zs "abc123"))])]
           [(zs "id", YStr (zs "abc123"))] (YStr (zs "abc123")) []).
  - reflexivity.
  - apply NoDup_cons; [cbv; intros [H|[]]; discriminate H|].
    apply NoDup_cons; [intros []|apply NoDup_nil].
  - reflexivity.
  - reflexivity.
  - discriminate.
  - reflexivity.
  - reflexivity.
  - cbv; reflexivity.
Defined.

Lemma run_walk_append_only_witness :
  exists sgs' ev',
    run_walk (fun _ => Some flood_response) (fun _ => flood_conf) (fun p => p)
      (fun _ => false) (fun _ => zs "?")
      [(zs "g/sub/cat/ex2", [zs "conf.yaml"]); (zs "g/sub/other", [])]
      site_sgs [] = (inr sgs', ev') /\
    exists new, sg_lookup (zs "g/sub") (zs "cat") sgs' =
                sg_lookup (zs "g/sub") (zs "cat") site_sgs ++ new.
Proof.
  do 2 eexists; split; [cbv; reflexivity|].
  eapply (run_walk_append_only (fun _ => Some flood_response) (fun _ => flood_conf)
            (fun p => p) (fun _ => false) (fun _ => zs "?")
            [(zs "g/sub/cat/ex2", [zs "conf.yaml"]); (zs "g/sub/other", [])] site_sgs []).
  cbv; reflexivity.
Defined.

Lemma title_label_shape_witness :
  title_label (zs "Flood") = Some (zs "Rmxvb2Q=") /\
  exists bs, utf8_encode (zs "Flood") = Some bs /\
    List.length (zs "Rmxvb2Q=") = (4 * ((List.length bs + 2) / 3))%nat /\
    Forall b64_text_char (zs "Rmxvb2Q=").
Proof. split; [reflexivity | apply title_label_shape; reflexivity]. Defined.

Lemma find_title_first_witness :
  exists r ev',
    find_title (zs "g/empty")
      [YMap [(zs "gallery_path", YStr (zs "g/sub")); (zs "display_name", YStr (zs "Sub"))];
       YMap [(zs "gallery_path", YStr (zs "g/empty")); (zs "display_name", YNull)]]
      [] = (inr r, ev') /\
    ((Forall (other_gallery (zs "g/empty"))
        [YMap [(zs "gallery_path", YStr (zs "g/sub")); (zs "display_name", YStr (zs "Sub"))];
         YMap [(zs "gallery_path", YStr (zs "g/empty")); (zs "display_name", YNull)]] /\
      r = None /\
      resolve_title (zs "g/empty") r = YStr (basename (zs "g/empty") ++ zs " Gallery")) \/
     (exists pre m post t,
       [YMap [(zs "gallery_path", YStr (zs "g/sub")); (zs "display_name", YStr (zs "Sub"))];
        YMap [(zs "gallery_path", YStr (zs "g/empty")); (zs "display_name", YNull)]]
       = pre ++ YMap m :: post /\
       Forall (other_gallery (zs "g/empty")) pre /\
       aget (zs "gallery_path") m = Some (YStr (zs "g/empty")) /\
       aget (zs "display_name") m = Some t /\ r = Some t /\
       resolve_title (zs "g/empty") r =
         match t with YNull => YStr (basename (zs "g/empty") ++ zs " Gallery") | _ => t end)).
Proof.
  assert (H : find_title (zs "g/empty")
      [YMap [(zs "gallery_path", YStr (zs "g/sub")); (zs "display_name", YStr (zs "Sub"))];
       YMap [(zs "gallery_path", YStr (zs "g/empty")); (zs "display_name", YNull)]]
      [] = (inr (Some YNull), [])) by reflexivity.
  exists (Some YNull), []; split; [exact H|].
  exact (find_title_first _ _ _ _ _ H).
Defined.


Lemma build_pages_outputs_witness :
  exists ev', build_pages (fun _ => site_conf) site_sgs [] = (inr tt, ev') /\
  exists top gsv gs new panels,
    site_conf = YMap top /\
    aget (zs "galleries") top = Some gsv /\
    (forall ev0, py_iter gsv ev0 = (inr gs, ev0)) /\
    ev' = [] ++ new ++ [Render (template_dir ++ zs "/homepage.rst")
                          (path_join source_dir (zs "index.rst"))
                          [(zs "galleries", YList panels)]] /\
    Forall2 (gallery_page (YMap top)) site_sgs new /\
    (forall p, In p panels -> exists m s id,
       p = YMap (aset (zs "label") (YStr id) m) /\ In (YMap m) gs /\
       aget (zs "gallery_path") m = Some (YStr s) /\ In s (map fst site_sgs) /\
       title_label (basename s) = Some id) /\
    (forall m s, In (YMap m) gs -> aget (zs "gallery_path") m = Some (YStr s) ->
       In s (map fst site_sgs) ->
       exists id, title_label (basename s) = Some id /\
                  In (YMap (aset (zs "label") (YStr id) m)) panels).
Proof.
  eexists; split; [cbv; reflexivity|].
  apply (build_pages_outputs (fun _ => site_conf) site_sgs []); reflexivity.
Defined.

Lemma build_pages_no_galleries_witness :
  build_pages (fun _ => YMap [(zs "title", YStr (zs "Site"))]) site_sgs [] =
    (inl (KeyError (zs "galleries")), []).
Proof.
  apply (build_pages_no_galleries (fun _ => YMap [(zs "title", YStr (zs "Site"))]) site_sgs
           [(zs "title", YStr (zs "Site"))] []).
  - reflexivity.
  - reflexivity.
  - apply Forall_cons; [cbv; discriminate | apply Forall_nil].
Defined.
